(** * Launch-specification assembly of the OCI launcher

    A shallow embedding of
    [internal/pkg/runtime/launcher/oci/process_linux.go] and
    [internal/pkg/runtime/launcher/oci/spec_linux.go]:
    the reversed user-namespace ID mappings, the capability sets, the
    process arguments, the process environment and the namespace list of
    the runtime spec handed to the OCI runtime.

    Conventions.  A Go [uint32] is a [Z] in [[0, 2^32)], arithmetic on it is
    wrapped with [wrap32]; a Go [string] is a [string]; a Go
    [map[string]string] is a [gmap string string]; a Go function returning
    [(T, error)] returns a [result T]. *)

From stdpp Require Import gmap strings list fin_maps.
From Stdlib Require Import ZArith Lia Ascii.

(** ** Fallible computations *)

(** The errors the launcher code builds itself, and the ones it only passes
    on from the packages it calls. *)
Inductive error : Type :=
  | RangeSizeError (size : Z)
      (* fmt.Errorf("subuid range size (%d) must be at least 65536", size) *)
  | ReadEnvFileError (f : string) (cause : string)
      (* fmt.Errorf("could not read environment file %q: %w", f, err) *)
  | ProcessEnvFileError (f : string) (cause : string)
      (* fmt.Errorf("while processing %s: %w", f, err) *)
  | ProcessArgsError (cause : string)
      (* fmt.Errorf("while getting ProcessArgs: %w", err) *)
  | ForeignError (cause : string).
      (* an error returned unchanged from a callee *)

Definition cause_of (e : error) : string :=
  match e with
  | RangeSizeError _ => "subuid range size must be at least 65536"
  | ReadEnvFileError _ c | ProcessEnvFileError _ c
  | ProcessArgsError c | ForeignError c => c
  end.

Inductive result (A : Type) : Type :=
  | Ok (a : A)
  | Err (e : error).
Arguments Ok {A} a.
Arguments Err {A} e.

Definition bind {A B : Type} (r : result A) (k : A -> result B) : result B :=
  match r with
  | Ok a => k a
  | Err e => Err e
  end.

Notation "'let?' x ':=' r 'in' k" := (bind r (fun x => k))
  (at level 10, x pattern, r at level 100, k at level 200).

(** ** Machine integers *)

(** [uint32] values and their wrap-around. *)
Definition uint32_max : Z := (2 ^ 32 - 1)%Z.
Definition is_uint32 (z : Z) : Prop := (0 <= z <= uint32_max)%Z.
Definition wrap32 (z : Z) : Z := (z mod 2 ^ 32)%Z.

(** ** The Go [strings] functions the launcher uses *)

Fixpoint HasPrefix (s prefix : string) {struct prefix} : bool :=
  match prefix with
  | EmptyString => true
  | String p prefix' =>
      match s with
      | EmptyString => false
      | String c s' => if decide (c = p) then HasPrefix s' prefix' else false
      end
  end.

Fixpoint drop_string (n : nat) (s : string) : string :=
  match n, s with
  | O, _ => s
  | S _, EmptyString => EmptyString
  | S n', String _ s' => drop_string n' s'
  end.

Definition TrimPrefix (s prefix : string) : string :=
  if HasPrefix s prefix then drop_string (String.length prefix) s else s.

Fixpoint Contains (s substr : string) : bool :=
  HasPrefix s substr ||
  match s with
  | EmptyString => false
  | String _ s' => Contains s' substr
  end.

(** The number of positions of [s] at which [substr] occurs. *)
Fixpoint occurrences (s substr : string) : nat :=
  (if HasPrefix s substr then 1 else 0) +
  match s with
  | EmptyString => 0
  | String _ s' => occurrences s' substr
  end.

Fixpoint ContainsRune (s : string) (r : Ascii.ascii) : bool :=
  match s with
  | EmptyString => false
  | String c s' => bool_decide (c = r) || ContainsRune s' r
  end.

(** [strings.SplitN(s, string(sep), 2)]: [s] cut at the first [sep]; a one
    element list when [s] holds no [sep]. *)
Fixpoint SplitN2 (s : string) (sep : Ascii.ascii) : list string :=
  match s with
  | EmptyString => [EmptyString]
  | String c s' =>
      if decide (c = sep) then [EmptyString; s']
      else match SplitN2 s' sep with
           | k :: rest => String c k :: rest
           | [] => []
           end
  end.

(** ** The data of the runtime spec, the image spec and the launcher *)

(** [github.com/opencontainers/runtime-spec/specs-go] *)
Module specs.

Record LinuxIDMapping : Type := {
  ContainerID : Z;
  HostID : Z;
  Size : Z
}.

Record LinuxCapabilities : Type := {
  Bounding : list string;
  Effective : list string;
  Inheritable : list string;
  Permitted : list string;
  Ambient : list string
}.

Record User : Type := {
  UID : Z;
  GID : Z;
  AdditionalGids : list Z
}.

Record Process : Type := {
  Terminal : bool;
  User' : User;
  Args : list string;
  Env : list string;
  Cwd : string;
  Capabilities : LinuxCapabilities;
  NoNewPrivileges : bool
}.

Inductive LinuxNamespaceType : Type :=
  | PIDNamespace
  | NetworkNamespace
  | MountNamespace
  | IPCNamespace
  | UTSNamespace
  | UserNamespace
  | CgroupNamespace
  | TimeNamespace.

Record LinuxNamespace : Type := {
  Type' : LinuxNamespaceType;
  Path : string
}.

Record Linux : Type := {
  UIDMappings : list LinuxIDMapping;
  GIDMappings : list LinuxIDMapping;
  Namespaces : list LinuxNamespace
}.

(** The part of [specs.Spec] the launcher fills in here. *)
Record Spec : Type := {
  Version : string;
  Linux' : Linux
}.

End specs.

#[global] Instance LinuxIDMapping_eq_dec : EqDecision specs.LinuxIDMapping.
Proof. solve_decision. Defined.
#[global] Instance LinuxNamespaceType_eq_dec :
  EqDecision specs.LinuxNamespaceType.
Proof. solve_decision. Defined.
#[global] Instance LinuxNamespace_eq_dec : EqDecision specs.LinuxNamespace.
Proof. solve_decision. Defined.

(** [github.com/opencontainers/image-spec/specs-go/v1] *)
Module imgspecv1.

Record ImageConfig : Type := {
  User : string;
  Env : list string;
  Entrypoint : list string;
  Cmd : list string
}.

Record Image : Type := {
  Config : ImageConfig
}.

End imgspecv1.

(** [internal/pkg/runtime/launcher] *)
Module launcher.

Record Namespaces : Type := {
  User : bool;
  UTS : bool;
  PID : bool;
  IPC : bool;
  Net : bool
}.

(** The options of [launcher.Options] that the functions below read. *)
Record Options : Type := {
  EnvFile : string;
  Env : gmap string string;
  NoPrivs : bool;
  KeepPrivs : bool;
  AddCaps : string;
  DropCaps : string;
  CwdPath : string;
  HomeDir : string;
  Namespaces' : Namespaces
}.

Record ExecParams : Type := {
  Image : string;
  Action : string;
  Process : string;
  Args : list string
}.

End launcher.

(** The [Launcher] of the [oci] package. *)
Record Launcher : Type := {
  cfg : launcher.Options;
  nativeSIF : bool;
  homeDest : string
}.

(** What the launcher reads from the host process and from packages whose
    code is not part of the embedding.  Every function below that touches
    one of them takes the snapshot as its first argument. *)
Record World : Type := {
  (* os.Environ() *)
  Environ : list string;
  (* os.LookupEnv(key) *)
  LookupEnv : string -> option string;
  (* os.Geteuid() *)
  Geteuid : Z;
  (* strconv.Atoi(s) *)
  Atoi : string -> result Z;
  (* os.ReadFile(f) *)
  ReadFile : string -> result string;
  (* term.IsTerminal(syscall.Stdin) *)
  StdinIsTerminal : bool;
  (* interpreter.EvaluateEnv(ctx, content, []string{}, []string{}) *)
  EvaluateEnv : string -> result (list string);
  (* membership in the table env.ReadOnlyVars *)
  ReadOnlyVars : string -> bool;
  (* capabilities.ToStrings of capabilities.GetProcessEffective() *)
  ProcessEffective : result (list string);
  (* oci.DefaultCaps *)
  DefaultCaps : list string;
  (* capabilities.Split(caps): the recognised names and the ignored ones *)
  Split : string -> list string * list string;
  (* ep.ActionScriptArgs() *)
  ActionScriptArgs : launcher.ExecParams -> result (list string);
  (* fakeroot.GetIDRange(file, uid) *)
  GetIDRange : string -> Z -> result specs.LinuxIDMapping;
  (* specs.Version *)
  SpecVersion : string;
  (* the entries of a map in the order a range statement visits them *)
  RangeOrder : gmap string string -> list (string * string)
}.

(** ** Reversed ID mappings ([process_linux.go]) *)

Section IDMappings.
Local Open Scope Z_scope.

Definition reverseMapByRange (targetUID targetGID : Z)
    (subuidRange subgidRange : specs.LinuxIDMapping)
    : list specs.LinuxIDMapping * list specs.LinuxIDMapping :=
  let uidMap :=
    if targetUID <? specs.Size subuidRange then
      [ {| specs.ContainerID := 0; specs.HostID := 1;
           specs.Size := targetUID |};
        {| specs.ContainerID := targetUID; specs.HostID := 0;
           specs.Size := 1 |};
        {| specs.ContainerID := wrap32 (targetUID + 1);
           specs.HostID := wrap32 (targetUID + 1);
           specs.Size := wrap32 (specs.Size subuidRange - targetUID) |} ]
    else
      [ {| specs.ContainerID := 0; specs.HostID := 1;
           specs.Size := specs.Size subuidRange |};
        {| specs.ContainerID := targetUID; specs.HostID := 0;
           specs.Size := 1 |} ] in
  let gidMap :=
    if targetGID <? specs.Size subgidRange then
      [ {| specs.ContainerID := 0; specs.HostID := 1;
           specs.Size := targetGID |};
        {| specs.ContainerID := targetGID; specs.HostID := 0;
           specs.Size := 1 |};
        {| specs.ContainerID := wrap32 (targetGID + 1);
           specs.HostID := wrap32 (targetGID + 1);
           specs.Size := wrap32 (specs.Size subgidRange - targetGID) |} ]
    else
      [ {| specs.ContainerID := 0; specs.HostID := 1;
           specs.Size := specs.Size subgidRange |};
        {| specs.ContainerID := targetGID; specs.HostID := 0;
           specs.Size := 1 |} ] in
  (uidMap, gidMap).

(** [fakeroot.SubUIDFile] and [fakeroot.SubGIDFile]: the sub-ID allocation
    files, in the standard places. *)
Definition SubUIDFile : string := "/etc/subuid".
Definition SubGIDFile : string := "/etc/subgid".

Definition getReverseUserMaps (w : World) (hostUID targetUID targetGID : Z)
    : result (list specs.LinuxIDMapping * list specs.LinuxIDMapping) :=
  let? subuidRange := GetIDRange w SubUIDFile hostUID in
  if specs.Size subuidRange <? 65536
  then Err (RangeSizeError (specs.Size subuidRange))
  else
    let? subgidRange := GetIDRange w SubGIDFile hostUID in
    if specs.Size subgidRange <? 65536
    then Err (RangeSizeError (specs.Size subgidRange))
    else Ok (reverseMapByRange targetUID targetGID subuidRange subgidRange).

(** How a mapping table is read: the entries are consulted in order and the
    first one whose container-ID interval holds the queried ID gives the
    host ID. *)
Definition covers (e : specs.LinuxIDMapping) (c : Z) : bool :=
  (specs.ContainerID e <=? c) && (c <? specs.ContainerID e + specs.Size e).

Fixpoint resolve (tbl : list specs.LinuxIDMapping) (c : Z) : option Z :=
  match tbl with
  | [] => None
  | e :: rest =>
      if covers e c then Some (specs.HostID e + (c - specs.ContainerID e))
      else resolve rest c
  end.

End IDMappings.

(** ** Capabilities ([process_linux.go]) *)

(** Modelled from the spec: [capabilities.RemoveDuplicated] is declared in
    [pkg/util/capabilities], outside the sources at hand.  Duplicates are
    collapsed; the first occurrence of a name is the one kept. *)
Fixpoint RemoveDuplicated_from (seen caps : list string) : list string :=
  match caps with
  | [] => []
  | c :: rest =>
      if decide (c ∈ seen) then RemoveDuplicated_from seen rest
      else c :: RemoveDuplicated_from (c :: seen) rest
  end.

Definition RemoveDuplicated (caps : list string) : list string :=
  RemoveDuplicated_from [] caps.

(** [lo.Without(collection, exclude...)]: the elements of [collection] that
    are none of [exclude], in their order. *)
Definition Without (collection exclude : list string) : list string :=
  filter (fun c => c ∉ exclude) collection.

Definition getBaseCapabilities (w : World) (l : Launcher)
    : result (list string) :=
  if launcher.NoPrivs (cfg l) then Ok []
  else if launcher.KeepPrivs (cfg l) then
    let? c := ProcessEffective w in Ok c
  else Ok (DefaultCaps w).

(** The two warnings about ignored names are log output only. *)
Definition getProcessCapabilities (w : World) (l : Launcher) (targetUID : Z)
    : result specs.LinuxCapabilities :=
  let? caps := getBaseCapabilities w l in
  let '(addCaps, _) := Split w (launcher.AddCaps (cfg l)) in
  let '(dropCaps, _) := Split w (launcher.DropCaps (cfg l)) in
  let caps := caps ++ addCaps in
  let caps := RemoveDuplicated caps in
  let caps := Without caps dropCaps in
  if (targetUID =? 0)%Z then
    Ok {| specs.Permitted := caps;
          specs.Effective := caps;
          specs.Bounding := caps;
          specs.Inheritable := [];
          specs.Ambient := [] |}
  else
    let explicitCaps := Without addCaps dropCaps in
    Ok {| specs.Permitted := explicitCaps;
          specs.Effective := explicitCaps;
          specs.Bounding := caps;
          specs.Inheritable := explicitCaps;
          specs.Ambient := explicitCaps |}.

(** ** Process arguments, working directory, terminal ([process_linux.go]) *)

Definition ociShellScript : string :=
  "export PS1='Apptainer> '; test -x /bin/bash && exec /bin/bash --norc || exec /bin/sh".

Definition getProcessTerminal (w : World) : bool := StdinIsTerminal w.

Definition getProcessArgs (imageSpec : imgspecv1.Image)
    (ep : launcher.ExecParams) : list string :=
  let processArgs :=
    if decide (launcher.Process ep ≠ "") then [launcher.Process ep]
    else imgspecv1.Entrypoint (imgspecv1.Config imageSpec) in
  if decide (0 < length (launcher.Args ep)) then
    processArgs ++ launcher.Args ep
  else if decide (launcher.Process ep = "") then
    processArgs ++ imgspecv1.Cmd (imgspecv1.Config imageSpec)
  else processArgs.

Definition getProcessCwd (l : Launcher) : result string :=
  if decide (0 < String.length (launcher.CwdPath (cfg l)))
  then Ok (launcher.CwdPath (cfg l))
  else Ok (homeDest l).

(** ** Process environment ([process_linux.go]) *)

Definition apptainerLibs : string := "/.singularity.d/libs".

(** [env.ApptainerPrefix] and [env.ApptainerEnvPrefix], declared in
    [internal/pkg/util/env]. *)
Definition ApptainerPrefix : string := "APPTAINER_".
Definition ApptainerEnvPrefix : string := "APPTAINERENV_".

(** Modelled from the spec: [mergeMap] is declared in another file of the
    [oci] package, outside the sources at hand.  Each layer may overwrite
    keys set by a lower layer: the entries of [b] are written over [a]. *)
Definition mergeMap (a b : gmap string string) : gmap string string := b ∪ a.

(** Modelled from the spec: [generate.Generator.SetProcessEnv] is declared
    in [internal/pkg/runtime/engine/config/oci/generate], outside the
    sources at hand.  The result is a [KEY=VALUE] list in which the last
    write of a key wins: the entry of [key] is replaced where there is one,
    and appended otherwise. *)
Fixpoint SetProcessEnv (key value : string) (env : list string)
    : list string :=
  match env with
  | [] => [key +:+ "=" +:+ value]
  | e :: rest =>
      if HasPrefix e (key +:+ "=") then (key +:+ "=" +:+ value) :: rest
      else e :: SetProcessEnv key value rest
  end.

(** The value of [key] in a [KEY=VALUE] list: that of its first entry. *)
Fixpoint lookupEnvList (key : string) (env : list string) : option string :=
  match env with
  | [] => None
  | e :: rest =>
      if HasPrefix e (key +:+ "=")
      then Some (TrimPrefix e (key +:+ "="))
      else lookupEnvList key rest
  end.

(** The local variables of [getProcessEnv], with the environment list of
    its generator [g]. *)
Record envVars : Type := mkEnvVars {
  path : string;
  appendPath : string;
  prependPath : string;
  ldLibraryPath : string;
  gEnv : list string
}.

(** Body of the loop over the image environment. *)
Definition scanImageEnv (st : envVars) (env : string) : envVars :=
  match SplitN2 env "="%char with
  | [k; v] =>
      let st :=
        if decide (k = "PATH")
        then mkEnvVars v (appendPath st) (prependPath st)
               (ldLibraryPath st) (gEnv st)
        else st in
      if decide (k = "LD_LIBRARY_PATH")
      then mkEnvVars (path st) (appendPath st) (prependPath st) v (gEnv st)
      else st
  | _ => st
  end.

(** Body of the loop over the runtime environment. *)
Definition applyRuntimeVar (st : envVars) (kv : string * string) : envVars :=
  let '(k, v) := kv in
  if decide (k = "PATH") then
    mkEnvVars v (appendPath st) (prependPath st) (ldLibraryPath st) (gEnv st)
  else if decide (k = "APPEND_PATH") then
    mkEnvVars (path st) v (prependPath st) (ldLibraryPath st) (gEnv st)
  else if decide (k = "PREPEND_PATH") then
    mkEnvVars (path st) (appendPath st) v (ldLibraryPath st) (gEnv st)
  else if decide (k = "LD_LIBRARY_PATH") then
    mkEnvVars (path st) (appendPath st) (prependPath st) v (gEnv st)
  else
    mkEnvVars (path st) (appendPath st) (prependPath st) (ldLibraryPath st)
      (SetProcessEnv k v (gEnv st)).

(** The order in which a [range] over a map visits its entries is chosen
    by the Go runtime ([RangeOrder]); any order is possible, each entry is
    visited once. *)
Definition range_order (m : gmap string string)
    (order : list (string * string)) : Prop :=
  order ≡ₚ map_to_list m.

Definition range_ok (w : World) : Prop :=
  forall m, range_order m (RangeOrder w m).

(** The [if] of [getProcessEnv] that makes sure [LD_LIBRARY_PATH] holds
    the library directory: the new value, from the one found in the
    input. *)
Definition withApptainerLibs (ldLibraryPath : string) : string :=
  if negb (Contains ldLibraryPath apptainerLibs)
  then TrimPrefix (ldLibraryPath +:+ ":" +:+ apptainerLibs) ":"
  else ldLibraryPath.

(** [getProcessEnv], the loop over [runtimeEnv] visiting it in [order]. *)
Definition getProcessEnv_in (imageSpec : imgspecv1.Image)
    (order : list (string * string)) : list string :=
  let imageEnv := imgspecv1.Env (imgspecv1.Config imageSpec) in
  let st := foldl scanImageEnv (mkEnvVars "" "" "" "" imageEnv) imageEnv in
  let st := foldl applyRuntimeVar st order in
  let path :=
    if decide (appendPath st ≠ "")
    then path st +:+ ":" +:+ appendPath st else path st in
  let path :=
    if decide (prependPath st ≠ "")
    then prependPath st +:+ ":" +:+ path else path in
  let g :=
    if decide (path ≠ "") then SetProcessEnv "PATH" path (gEnv st)
    else gEnv st in
  let ldLibraryPath := withApptainerLibs (ldLibraryPath st) in
  SetProcessEnv "LD_LIBRARY_PATH" ldLibraryPath g.

Definition getProcessEnv (w : World) (imageSpec : imgspecv1.Image)
    (runtimeEnv : gmap string string) : list string :=
  getProcessEnv_in imageSpec (RangeOrder w runtimeEnv).

Definition defaultEnv (image bundle : string) : gmap string string :=
  <[ApptainerPrefix +:+ "NAME" := image]>
    (<[ApptainerPrefix +:+ "CONTAINER" := bundle]> ∅).

(** Body of the loop of [apptainerEnvMap]. *)
Definition apptainerEnvStep (m : gmap string string) (envVar : string)
    : gmap string string :=
  if negb (HasPrefix envVar ApptainerEnvPrefix) then m
  else match SplitN2 envVar "="%char with
       | [k; v] => <[TrimPrefix k ApptainerEnvPrefix := v]> m
       | _ => m
       end.

Definition apptainerEnvMap (w : World) : gmap string string :=
  foldl apptainerEnvStep ∅ (Environ w).

(** Body of the last loop of [envFileMap]. *)
Definition envFileStep (w : World) (m : gmap string string)
    (envVar : string) : gmap string string :=
  match SplitN2 envVar "="%char with
  | [k; v] => if ReadOnlyVars w k then m else <[k := v]> m
  | _ => m
  end.

Definition envFileMap (w : World) (f : string) : result (gmap string string) :=
  match ReadFile w f with
  | Err err => Err (ReadEnvFileError f (cause_of err))
  | Ok content =>
      match EvaluateEnv w content with
      | Err err => Err (ProcessEnvFileError f (cause_of err))
      | Ok shellEnv => Ok (foldl (envFileStep w) ∅ shellEnv)
      end
  end.

(** ** Assembling the process ([process_linux.go]) *)

(** The runtime environment [getProcess] assembles before it hands it to
    [getProcessEnv]: the statements of [getProcess] up to the one on
    [HOME]. *)
Definition getProcess_rtEnv (w : World) (l : Launcher)
    (imgSpec : imgspecv1.Image) (bundle : string) (ep : launcher.ExecParams)
    : result (gmap string string) :=
  let rtEnv := defaultEnv (launcher.Image ep) bundle in
  let rtEnv :=
    match LookupEnv w "TERM" with
    | Some hostTerm => <["TERM" := hostTerm]> rtEnv
    | None => rtEnv
    end in
  let rtEnv := mergeMap rtEnv (apptainerEnvMap w) in
  let? rtEnv :=
    if decide (launcher.EnvFile (cfg l) ≠ "") then
      let? e := envFileMap w (launcher.EnvFile (cfg l)) in
      Ok (mergeMap rtEnv e)
    else Ok rtEnv in
  let rtEnv := mergeMap rtEnv (launcher.Env (cfg l)) in
  let rtEnv :=
    if decide (imgspecv1.User (imgspecv1.Config imgSpec) = "")
    then <["HOME" := homeDest l]> rtEnv
    else rtEnv in
  Ok rtEnv.

(** The [switch] of [getProcess] that chooses the arguments, by mode. *)
Definition getProcess_args (w : World) (l : Launcher)
    (imgSpec : imgspecv1.Image) (ep : launcher.ExecParams)
    : result (list string) :=
  if nativeSIF l then
    match ActionScriptArgs w ep with
    | Ok args => Ok args
    | Err err => Err (ProcessArgsError (cause_of err))
    end
  else if decide (launcher.Action ep = "shell") then
    Ok ["/bin/sh"; "-c"; ociShellScript]
  else Ok (getProcessArgs imgSpec ep).

Definition getProcess (w : World) (l : Launcher) (imgSpec : imgspecv1.Image)
    (bundle : string) (ep : launcher.ExecParams) (u : specs.User)
    : result specs.Process :=
  let? rtEnv := getProcess_rtEnv w l imgSpec bundle ep in
  let? cwd := getProcessCwd l in
  let noNewPrivs := false in
  let noNewPrivs := if launcher.NoPrivs (cfg l) then true else noNewPrivs in
  let? caps := getProcessCapabilities w l (specs.UID u) in
  let? args := getProcess_args w l imgSpec ep in
  Ok {| specs.Args := args;
        specs.Capabilities := caps;
        specs.Cwd := cwd;
        specs.Env := getProcessEnv w imgSpec rtEnv;
        specs.NoNewPrivileges := noNewPrivs;
        specs.User' := u;
        specs.Terminal := getProcessTerminal w |}.

(** ** Namespaces ([spec_linux.go], [rootless.go]) *)

Definition namespace (t : specs.LinuxNamespaceType) : specs.LinuxNamespace :=
  {| specs.Type' := t; specs.Path := "" |}.

Definition defaultNamespaces : list specs.LinuxNamespace :=
  [ namespace specs.IPCNamespace;
    namespace specs.PIDNamespace;
    namespace specs.MountNamespace ].

(** [minimalSpec], on the part of the spec kept here. *)
Definition minimalSpec (w : World) : specs.Spec :=
  {| specs.Version := SpecVersion w;
     specs.Linux' := {| specs.UIDMappings := [];
                        specs.GIDMappings := [];
                        specs.Namespaces := defaultNamespaces |} |}.

Definition UIDEnv : string := "_CONTAINERS_ROOTLESS_UID".

(** [rootless.Getuid]; [os.Getenv] gives the empty string for a variable
    that is not set. *)
Definition Getuid (w : World) : result Z :=
  let u := default "" (LookupEnv w UIDEnv) in
  if decide (u ≠ "") then Atoi w u else Ok (Geteuid w).

(** [spec.Linux.Namespaces = append(spec.Linux.Namespaces, ns)] *)
Definition appendNamespace (spec : specs.Spec) (ns : specs.LinuxNamespace)
    : specs.Spec :=
  {| specs.Version := specs.Version spec;
     specs.Linux' :=
       {| specs.UIDMappings := specs.UIDMappings (specs.Linux' spec);
          specs.GIDMappings := specs.GIDMappings (specs.Linux' spec);
          specs.Namespaces :=
            specs.Namespaces (specs.Linux' spec) ++ [ns] |} |}.

Definition noticeIPC : string :=
  "--oci runtime always uses an IPC namespace, ipc flag is redundant.".
Definition noticePID : string :=
  "--oci runtime always uses a PID namespace, pid flag is redundant.".
Definition noticeUser : string :=
  "The --oci runtime always creates a user namespace when run as non-root, --userns / -u flag is redundant.".

(** The state [addNamespaces] works on: the spec it updates in place and
    the notices it logs with [sylog.Infof]. *)
Record nsState : Type := mkNsState {
  nsSpec : specs.Spec;
  nsLog : list string
}.

Definition infof (msg : string) (st : nsState) : nsState :=
  mkNsState (nsSpec st) (nsLog st ++ [msg]).

Definition addNs (t : specs.LinuxNamespaceType) (st : nsState) : nsState :=
  mkNsState (appendNamespace (nsSpec st) (namespace t)) (nsLog st).

(** [addNamespaces]: the final state and the error returned, if any.  The
    spec is updated through a pointer, so what was appended before an
    error stays appended. *)
Definition addNamespaces (w : World) (spec : specs.Spec)
    (ns : launcher.Namespaces) : nsState * option error :=
  let st := mkNsState spec [] in
  let st := if launcher.IPC ns then infof noticeIPC st else st in
  let st := if launcher.Net ns then addNs specs.NetworkNamespace st else st in
  let st := if launcher.PID ns then infof noticePID st else st in
  let after_user (st : nsState) : nsState * option error :=
    let st := if launcher.UTS ns then addNs specs.UTSNamespace st else st in
    (st, None) in
  if launcher.User ns then
    match Getuid w with
    | Err err => (st, Some err)
    | Ok uid =>
        if (uid =? 0)%Z then after_user (addNs specs.UserNamespace st)
        else after_user (infof noticeUser st)
    end
  else after_user st.

(** ** Images, partitions and section locks ([pkg/image/image.go]) *)

Module image.

(** The image and partition formats: [iota + 0x1000]. *)
Definition SQUASHFS : Z := 4096.
Definition EXT3 : Z := 4097.
Definition SANDBOX : Z := 4098.
Definition SIF : Z := 4099.
Definition ENCRYPTSQUASHFS : Z := 4100.
Definition RAW : Z := 4101.
Definition GOCRYPTFSSQUASHFS : Z := 4102.

(** [Usage], a [uint8] of flags: [1 << iota]. *)
Definition RootFsUsage : Z := 1.
Definition OverlayUsage : Z := 2.
Definition DataUsage : Z := 4.

(** The errors of the package. *)
Inductive error : Type :=
  | ErrConversion (value : Z)
      (* the error of safecast.ToInt64 *)
  | ErrNoRootFs
      (* "no root filesystem found" *)
  | ErrRootFsPartitions (cause : error)
      (* "while getting root FS partitions: %v" *)
  | ErrResolvePath (path cause : string)
      (* "failed to resolve path %s: %s" *)
  | ErrWriteUsedForReading (path : string)
      (* "can't open %s for writing, already used for reading by this process" *)
  | ErrWriteUsedForWriting (path : string)
      (* "can't open %s for writing, already used for writing by this process" *)
  | ErrReadUsedForWriting (path : string)
      (* "can't open %s for reading, already used for writing by this process" *)
  | ErrWriteInUse (path : string)
      (* "can't open %s for writing, currently in use by another process" *)
  | ErrReadInUse (path : string)
      (* "can't open %s for reading, currently in use for writing by another process" *)
  | ErrLock (cause : string).
      (* any other error of the byte-range lock, returned unchanged *)

Inductive result (A : Type) : Type :=
  | Success (a : A)
  | Failure (e : error).
Arguments Success {A} a.
Arguments Failure {A} e.

(** [Section] *)
Record Section' : Type := {
  Name : string;
  Size : Z;
  Offset : Z;
  ID : Z;
  Type' : Z;
  AllowedUsage : Z
}.

(** [Image], without its [File]. *)
Module Image.
Record t : Type := {
  Partitions : list Section';
  Sections : list Section';
  Path : string;
  Name : string;
  Source : string;
  Type' : Z;
  Fd : Z;
  Writable : bool;
  Usage : Z
}.
End Image.

Definition getPartitions (i : Image.t) (usage : Z) : result (list Section') :=
  if (Z.land (Image.Usage i) usage =? 0)%Z then Success []
  else
    Success
      (filter (fun p => Z.land (AllowedUsage p) usage <> 0%Z)
         (Image.Partitions i)).

Definition GetAllPartitions (i : Image.t) : result (list Section') :=
  getPartitions i (Z.lor (Z.lor RootFsUsage OverlayUsage) DataUsage).

Definition GetRootFsPartitions (i : Image.t) : result (list Section') :=
  getPartitions i RootFsUsage.

Definition GetOverlayPartitions (i : Image.t) : result (list Section') :=
  getPartitions i OverlayUsage.

Definition GetDataPartitions (i : Image.t) : result (list Section') :=
  getPartitions i DataUsage.

Definition GetRootFsPartition (i : Image.t) : result Section' :=
  match GetRootFsPartitions i with
  | Failure err => Failure err
  | Success partitions =>
      match partitions with
      | [] => Failure ErrNoRootFs
      | first :: _ => Success first
      end
  end.

(** The loop of [EncryptedRootFs]. *)
Fixpoint encryptionOf (rootFsParts : list Section') : string :=
  match rootFsParts with
  | [] => ""
  | p :: rest =>
      if (Type' p =? ENCRYPTSQUASHFS)%Z then "encryptfs"
      else if (Type' p =? GOCRYPTFSSQUASHFS)%Z then "gocryptfs"
      else encryptionOf rest
  end.

Definition EncryptedRootFs (i : Image.t) : result string :=
  match GetRootFsPartitions i with
  | Failure err => Failure (ErrRootFsPartitions err)
  | Success rootFsParts => Success (encryptionOf rootFsParts)
  end.

(** The loop of [AuthorizedPath]; [resolvePath path] stands for
    [filepath.EvalSymlinks(filepath.Clean(path))], which reads the file
    system. *)
Fixpoint AuthorizedPath_loop (resolvePath : string -> result string)
    (dirname : string) (paths : list string) : result bool :=
  match paths with
  | [] => Success false
  | path :: rest =>
      match resolvePath path with
      | Failure err =>
          Failure (ErrResolvePath path
                     (match err with ErrLock c => c | _ => "" end))
      | Success match' =>
          if HasPrefix dirname match' then Success true
          else AuthorizedPath_loop resolvePath dirname rest
      end
  end.

Definition AuthorizedPath (resolvePath : string -> result string)
    (i : Image.t) (paths : list string) : result bool :=
  AuthorizedPath_loop resolvePath (Image.Path i) paths.

(** [safecast.ToInt64] of a [uint64]. *)
Definition ToInt64 (u : Z) : result Z :=
  if (u <=? 2 ^ 63 - 1)%Z then Success u else Failure (ErrConversion u).

(** [int(fd)] of a [uintptr], on 64 bits. *)
Definition int_of_uintptr (fd : Z) : Z :=
  if (fd <? 2 ^ 63)%Z then fd else (fd - 2 ^ 64)%Z.

(** The errors of [lock.ByteRange.Lock] and [RLock]; [None] is [nil]. *)
Inductive lockError : Type :=
  | ErrByteRangeAcquired
  | ErrLockNotSupported
  | ErrOther (cause : string).

(** What the operating system answers to a lock request on the byte range
    [(fd, start, size)]: for [br.Lock()] and for [br.RLock()]. *)
Record ByteRangeLocks : Type := {
  Lock : Z -> Z -> Z -> option lockError;
  RLock : Z -> Z -> Z -> option lockError
}.

(** The package variables [writeLocks] and [readLocks]. *)
Record lockTables : Type := {
  writeLocks : gmap string (list Section');
  readLocks : gmap string (list Section')
}.

(** [s.Offset == section.Offset && s.Size == section.Size] *)
Definition same_range (section s : Section') : bool :=
  (Offset s =? Offset section)%Z && (Size s =? Size section)%Z.

(** The end of [lockSection]: what becomes of the error of the lock. *)
Definition lockSection_end (i : Image.t) (err : option lockError)
    : option error :=
  match err with
  | Some ErrByteRangeAcquired =>
      if Image.Writable i then Some (ErrWriteInUse (Image.Path i))
      else Some (ErrReadInUse (Image.Path i))
  | Some ErrLockNotSupported => None
  | Some (ErrOther cause) => Some (ErrLock cause)
  | None => None
  end.

(** [lockSection]: the tables after the call and the error returned. *)
Definition lockSection (os : ByteRangeLocks) (tables : lockTables)
    (i : Image.t) (section : Section') : lockTables * option error :=
  let fd := int_of_uintptr (Image.Fd i) in
  match ToInt64 (Offset section) with
  | Failure err => (tables, Some err)
  | Success start =>
  match ToInt64 (Size section) with
  | Failure err => (tables, Some err)
  | Success size =>
      if Image.Writable i then
        let err := Lock os fd start size in
        match err with
        | None =>
            if existsb (same_range section)
                 (default [] (readLocks tables !! Image.Path i))
            then (tables, Some (ErrWriteUsedForReading (Image.Path i)))
            else if existsb (same_range section)
                      (default [] (writeLocks tables !! Image.Path i))
            then (tables, Some (ErrWriteUsedForWriting (Image.Path i)))
            else
              ({| writeLocks :=
                    <[Image.Path i :=
                        default [] (writeLocks tables !! Image.Path i)
                        ++ [section]]> (writeLocks tables);
                  readLocks := readLocks tables |},
               lockSection_end i err)
        | Some _ => (tables, lockSection_end i err)
        end
      else
        let err := RLock os fd start size in
        match err with
        | None =>
            if existsb (same_range section)
                 (default [] (writeLocks tables !! Image.Path i))
            then (tables, Some (ErrReadUsedForWriting (Image.Path i)))
            else
              ({| writeLocks := writeLocks tables;
                  readLocks :=
                    <[Image.Path i :=
                        default [] (readLocks tables !! Image.Path i)
                        ++ [section]]> (readLocks tables) |},
               lockSection_end i err)
        | Some _ => (tables, lockSection_end i err)
        end
  end end.

(** The tables of a process that has locked nothing. *)
Definition noLocks : lockTables := {| writeLocks := ∅; readLocks := ∅ |}.

(** A sequence of calls of [lockSection], each with the answers of the
    operating system at that time. *)
Definition lockSections (tables : lockTables)
    (calls : list (ByteRangeLocks * Image.t * Section')) : lockTables :=
  foldl (fun t call => fst (lockSection call.1.1 t call.1.2 call.2))
    tables calls.

End image.

(** ** What the launch is expected to give *)

(** The layers of the runtime environment, lowest first: the two defaults,
    the host [TERM], the [APPTAINERENV_] variables of the host, the content
    of the environment file, the explicit [Env] pairs.  The value of a key
    is that of the highest layer that sets it. *)
Definition layeredValue (w : World) (l : Launcher) (ep : launcher.ExecParams)
    (bundle : string) (fileEnv : gmap string string) (k : string)
    : option string :=
  match launcher.Env (cfg l) !! k with
  | Some v => Some v
  | None =>
  match fileEnv !! k with
  | Some v => Some v
  | None =>
  match apptainerEnvMap w !! k with
  | Some v => Some v
  | None =>
  match (if decide (k = "TERM") then LookupEnv w "TERM" else None) with
  | Some v => Some v
  | None => defaultEnv (launcher.Image ep) bundle !! k
  end end end end.

(** The inputs on which no step of [getProcess] returns an error: the
    environment file, when one is named, is read and evaluated; the host's
    effective capabilities, when they are asked for, are read; the action
    script arguments of a native SIF image are built. *)
Definition launch_inputs_ok (w : World) (l : Launcher)
    (ep : launcher.ExecParams) : Prop :=
  (launcher.EnvFile (cfg l) = "" \/
   exists m, envFileMap w (launcher.EnvFile (cfg l)) = Ok m) /\
  (launcher.NoPrivs (cfg l) = true \/ launcher.KeepPrivs (cfg l) = false \/
   exists c, ProcessEffective w = Ok c) /\
  (nativeSIF l = false \/ exists args, ActionScriptArgs w ep = Ok args).

(** ** Sample inputs *)

(** [strings.FieldsFunc(s, c == ',')], the way a capability list is cut. *)
Fixpoint fields_from (cur : string) (s : string) : list string :=
  match s with
  | EmptyString => if decide (cur = "") then [] else [cur]
  | String c s' =>
      if decide (c = ","%char)
      then (if decide (cur = "") then [] else [cur]) ++ fields_from "" s'
      else fields_from (cur +:+ String c EmptyString) s'
  end.

Definition sampleEnviron : list string :=
  [ "HOME=/home/alice"; "TERM=xterm"; "APPTAINERENV_PATH=/b";
    "APPTAINERENV_FOO=bar"; "PATH=/usr/bin" ].

(** A host: user 1001, a 65536-wide sub-ID allocation, an environment file
    [/etc/env] whose evaluation gives two assignments, every capability
    name recognised. *)
Definition sampleWorld : World :=
  {| Environ := sampleEnviron;
     LookupEnv := fun key => lookupEnvList key sampleEnviron;
     Geteuid := 1001;
     Atoi := fun _ => Err (ForeignError "invalid syntax");
     ReadFile := fun f =>
       if decide (f = "/etc/env") then Ok "export FOO=file"
       else Err (ForeignError "no such file or directory");
     StdinIsTerminal := false;
     EvaluateEnv := fun _ => Ok ["FOO=file"; "PWD=/"];
     ReadOnlyVars := fun k => bool_decide (k = "PWD");
     ProcessEffective := Ok [];
     DefaultCaps := ["CAP_CHOWN"; "CAP_KILL"; "CAP_NET_RAW"; "CAP_SETUID"];
     Split := fun caps => (fields_from "" caps, []);
     ActionScriptArgs := fun _ => Ok ["/.singularity.d/actions/run"];
     GetIDRange := fun _ _ =>
       Ok {| specs.ContainerID := 1; specs.HostID := 100000;
             specs.Size := 65536 |};
     SpecVersion := "1.0.2";
     RangeOrder := map_to_list |}.

Definition sampleRange (size : Z) : specs.LinuxIDMapping :=
  {| specs.ContainerID := 1; specs.HostID := 100000; specs.Size := size |}.

(** The sample host with another effective UID and other sub-ID
    allocations: [subuid] and [subgid] are the sizes of the two ranges. *)
Definition hostWith (euid subuid subgid : Z) : World :=
  {| Environ := Environ sampleWorld;
     LookupEnv := LookupEnv sampleWorld;
     Geteuid := euid;
     Atoi := Atoi sampleWorld;
     ReadFile := ReadFile sampleWorld;
     StdinIsTerminal := StdinIsTerminal sampleWorld;
     EvaluateEnv := EvaluateEnv sampleWorld;
     ReadOnlyVars := ReadOnlyVars sampleWorld;
     ProcessEffective := ProcessEffective sampleWorld;
     DefaultCaps := DefaultCaps sampleWorld;
     Split := Split sampleWorld;
     ActionScriptArgs := ActionScriptArgs sampleWorld;
     GetIDRange := fun file _ =>
       if decide (file = SubUIDFile) then Ok (sampleRange subuid)
       else Ok (sampleRange subgid);
     SpecVersion := SpecVersion sampleWorld;
     RangeOrder := RangeOrder sampleWorld |}.

(** The sample host with another process environment. *)
Definition hostWithEnviron (environ : list string) : World :=
  {| Environ := environ;
     LookupEnv := fun key => lookupEnvList key environ;
     Geteuid := Geteuid sampleWorld;
     Atoi := Atoi sampleWorld;
     ReadFile := ReadFile sampleWorld;
     StdinIsTerminal := StdinIsTerminal sampleWorld;
     EvaluateEnv := EvaluateEnv sampleWorld;
     ReadOnlyVars := ReadOnlyVars sampleWorld;
     ProcessEffective := ProcessEffective sampleWorld;
     DefaultCaps := DefaultCaps sampleWorld;
     Split := Split sampleWorld;
     ActionScriptArgs := ActionScriptArgs sampleWorld;
     GetIDRange := GetIDRange sampleWorld;
     SpecVersion := SpecVersion sampleWorld;
     RangeOrder := RangeOrder sampleWorld |}.

(** A namespace request with the given flags. *)
Definition flags (user uts pid ipc net : bool) : launcher.Namespaces :=
  {| launcher.User := user; launcher.UTS := uts; launcher.PID := pid;
     launcher.IPC := ipc; launcher.Net := net |}.

(** The same host run by root. *)
Definition rootWorld : World := hostWith 0 65536 65536.

(** A launch of the image [docker://alpine] with [--add-caps], [--drop-caps]
    and [--env PATH=/c], and the image: entrypoint [/bin/foo], default
    command [--flag], [PATH=/a] in its environment, no user. *)
Definition sampleOptions : launcher.Options :=
  {| launcher.EnvFile := "";
     launcher.Env := {[ "PATH" := "/c" ]};
     launcher.NoPrivs := false;
     launcher.KeepPrivs := false;
     launcher.AddCaps := "CAP_SYS_ADMIN,CAP_KILL,CAP_CHOWN";
     launcher.DropCaps := "CAP_CHOWN";
     launcher.CwdPath := "";
     launcher.HomeDir := "/home/alice";
     launcher.Namespaces' :=
       {| launcher.User := false; launcher.UTS := false;
          launcher.PID := true; launcher.IPC := true;
          launcher.Net := false |} |}.

Definition sampleLauncher : Launcher :=
  {| cfg := sampleOptions; nativeSIF := false; homeDest := "/home/alice" |}.

Definition sampleImage : imgspecv1.Image :=
  {| imgspecv1.Config :=
       {| imgspecv1.User := "";
          imgspecv1.Env := ["PATH=/a"];
          imgspecv1.Entrypoint := ["/bin/foo"];
          imgspecv1.Cmd := ["--flag"] |} |}.

Definition sampleExec (process : string) : launcher.ExecParams :=
  {| launcher.Image := "docker://alpine";
     launcher.Action := "exec";
     launcher.Process := process;
     launcher.Args := [] |}.

Definition sampleUser (uid : Z) : specs.User :=
  {| specs.UID := uid; specs.GID := uid; specs.AdditionalGids := [] |}.

(** The process [getProcess] assembles for the sample launch, run as
    user 1000 without an explicit process name. *)
Definition sampleProcess : specs.Process :=
  {| specs.Terminal := false;
     specs.User' := sampleUser 1000;
     specs.Args := ["/bin/foo"; "--flag"];
     specs.Env :=
       [ "PATH=/c"; "APPTAINER_CONTAINER=/bundle";
         "APPTAINER_NAME=docker://alpine"; "FOO=bar"; "TERM=xterm";
         "HOME=/home/alice"; "LD_LIBRARY_PATH=/.singularity.d/libs" ];
     specs.Cwd := "/home/alice";
     specs.Capabilities :=
       {| specs.Bounding :=
            ["CAP_KILL"; "CAP_NET_RAW"; "CAP_SETUID"; "CAP_SYS_ADMIN"];
          specs.Effective := ["CAP_SYS_ADMIN"; "CAP_KILL"];
          specs.Inheritable := ["CAP_SYS_ADMIN"; "CAP_KILL"];
          specs.Permitted := ["CAP_SYS_ADMIN"; "CAP_KILL"];
          specs.Ambient := ["CAP_SYS_ADMIN"; "CAP_KILL"] |};
     specs.NoNewPrivileges := false |}.

(** Every namespace flag set. *)
Definition allNamespaces : launcher.Namespaces :=
  {| launcher.User := true; launcher.UTS := true; launcher.PID := true;
     launcher.IPC := true; launcher.Net := true |}.

(** The namespaces of [minimalSpec] after [addNamespaces]. *)
Definition namespaces_after (w : World) (ns : launcher.Namespaces)
    : list specs.LinuxNamespace :=
  specs.Namespaces
    (specs.Linux' (nsSpec (fst (addNamespaces w (minimalSpec w) ns)))).

(** The sample launch with [--no-privs] and [--keep-privs] together. *)
Definition noPrivsLauncher : Launcher :=
  {| cfg :=
       {| launcher.EnvFile := "";
          launcher.Env := ∅;
          launcher.NoPrivs := true;
          launcher.KeepPrivs := true;
          launcher.AddCaps := "CAP_NET_RAW";
          launcher.DropCaps := "";
          launcher.CwdPath := "/srv";
          launcher.HomeDir := "/home/alice";
          launcher.Namespaces' := flags false false false false false |};
     nativeSIF := false;
     homeDest := "/home/alice" |}.

(** The value of [PATH] that [getProcessEnv] reads from the image
    environment: that of the last [PATH] entry, the empty string without
    one. *)
Definition imagePath (imageEnv : list string) : string :=
  path (foldl scanImageEnv (mkEnvVars "" "" "" "" imageEnv) imageEnv).

(** The keys the [switch] of [getProcessEnv] keeps for itself. *)
Definition interceptedKeys : list string :=
  ["PATH"; "APPEND_PATH"; "PREPEND_PATH"; "LD_LIBRARY_PATH"].

(** No key of the map holds an [=]. *)
Definition plain_keys (m : gmap string string) : Prop :=
  forall k v, m !! k = Some v -> ContainsRune k "=" = false.

(** The [PATH] that [getProcessEnv] computes, from the image's [PATH] and
    the [PATH], [APPEND_PATH] and [PREPEND_PATH] of the runtime
    environment. *)
Definition composedPath (imageEnv : list string)
    (runtimeEnv : gmap string string) : string :=
  let path := default (imagePath imageEnv) (runtimeEnv !! "PATH") in
  let appendPath := default "" (runtimeEnv !! "APPEND_PATH") in
  let prependPath := default "" (runtimeEnv !! "PREPEND_PATH") in
  let path :=
    if decide (appendPath ≠ "") then path +:+ ":" +:+ appendPath
    else path in
  if decide (prependPath ≠ "") then prependPath +:+ ":" +:+ path else path.

(** The sample launch as [apptainer shell], with a process name that the
    shell mode ignores. *)
Definition shellExec : launcher.ExecParams :=
  {| launcher.Image := "docker://alpine";
     launcher.Action := "shell";
     launcher.Process := "/bin/bar";
     launcher.Args := ["-x"] |}.

(** The sample host inside a rootless namespace entered by user 1001: the
    effective UID is 0 and [_CONTAINERS_ROOTLESS_UID] names the user. *)
Definition rootlessWorld : World :=
  {| Environ := ["_CONTAINERS_ROOTLESS_UID=1001"];
     LookupEnv := fun key =>
       lookupEnvList key ["_CONTAINERS_ROOTLESS_UID=1001"];
     Geteuid := 0;
     Atoi := fun s =>
       if decide (s = "1001") then Ok 1001%Z
       else Err (ForeignError "invalid syntax");
     ReadFile := ReadFile sampleWorld;
     StdinIsTerminal := StdinIsTerminal sampleWorld;
     EvaluateEnv := EvaluateEnv sampleWorld;
     ReadOnlyVars := ReadOnlyVars sampleWorld;
     ProcessEffective := ProcessEffective sampleWorld;
     DefaultCaps := DefaultCaps sampleWorld;
     Split := Split sampleWorld;
     ActionScriptArgs := ActionScriptArgs sampleWorld;
     GetIDRange := GetIDRange sampleWorld;
     SpecVersion := SpecVersion sampleWorld;
     RangeOrder := RangeOrder sampleWorld |}.

(** The sample launch with other explicit [--env] pairs and another
    environment file. *)
Definition launcherWith (envFile : string) (env : gmap string string)
    : Launcher :=
  {| cfg :=
       {| launcher.EnvFile := envFile;
          launcher.Env := env;
          launcher.NoPrivs := false;
          launcher.KeepPrivs := false;
          launcher.AddCaps := "";
          launcher.DropCaps := "";
          launcher.CwdPath := "";
          launcher.HomeDir := "/home/alice";
          launcher.Namespaces' := flags false false false false false |};
     nativeSIF := false;
     homeDest := "/home/alice" |}.

(** The sample launch of a native SIF image, with a working directory. *)
Definition nativeLauncher : Launcher :=
  {| cfg := cfg noPrivsLauncher; nativeSIF := true;
     homeDest := "/home/alice" |}.

(** * Properties *)

(** ** Reversed ID mappings *)

Section IDMappingFacts.
Local Open Scope Z_scope.

Lemma wrap32_id (z : Z) : is_uint32 z -> wrap32 z = z.
Proof.
  unfold is_uint32, uint32_max, wrap32. intros H.
  apply Z.mod_small. lia.
Qed.

Ltac covers_cases :=
  unfold covers; simpl;
  repeat match goal with
         | |- context [?a <=? ?b] => destruct (Z.leb_spec a b)
         | |- context [?a <? ?b] => destruct (Z.ltb_spec a b)
         end; simpl; try lia; try (f_equal; lia).

(** One table of [reverseMapByRange], as a function of the target and of
    the range size. *)
Lemma reverseMapByRange_fst tU tG rU rG :
  fst (reverseMapByRange tU tG rU rG) =
    if tU <? specs.Size rU then
      [ {| specs.ContainerID := 0; specs.HostID := 1; specs.Size := tU |};
        {| specs.ContainerID := tU; specs.HostID := 0; specs.Size := 1 |};
        {| specs.ContainerID := wrap32 (tU + 1);
           specs.HostID := wrap32 (tU + 1);
           specs.Size := wrap32 (specs.Size rU - tU) |} ]
    else
      [ {| specs.ContainerID := 0; specs.HostID := 1;
           specs.Size := specs.Size rU |};
        {| specs.ContainerID := tU; specs.HostID := 0; specs.Size := 1 |} ].
Proof. reflexivity. Qed.

Lemma reverseMapByRange_snd tU tG rU rG :
  snd (reverseMapByRange tU tG rU rG) = fst (reverseMapByRange tG tU rG rU).
Proof. reflexivity. Qed.

Lemma resolve_target t o rU rO :
  is_uint32 t -> is_uint32 (specs.Size rU) ->
  resolve (fst (reverseMapByRange t o rU rO)) t = Some 0.
Proof.
  unfold is_uint32, uint32_max. intros Ht Hr.
  rewrite reverseMapByRange_fst.
  destruct (Z.ltb_spec t (specs.Size rU)); simpl; covers_cases.
Qed.

Lemma resolve_below t o rU rO c :
  is_uint32 t -> is_uint32 (specs.Size rU) ->
  0 <= c -> c < t -> c < specs.Size rU ->
  resolve (fst (reverseMapByRange t o rU rO)) c = Some (c + 1).
Proof.
  unfold is_uint32, uint32_max. intros Ht Hr Hc0 Hct Hcr.
  rewrite reverseMapByRange_fst.
  destruct (Z.ltb_spec t (specs.Size rU)); simpl; covers_cases.
Qed.

(** C1: for a sub-ID range of at least 65536 IDs, the first-match reading
    of the UID table sends the target UID to host ID 0 and every smaller
    container ID [c] inside the range to host ID [c + 1]; the GID table
    does the same for the target GID. *)
Theorem reverseMapByRange_resolve
    (targetUID targetGID : Z) (subuidRange subgidRange : specs.LinuxIDMapping) :
  is_uint32 targetUID -> is_uint32 targetGID ->
  is_uint32 (specs.Size subuidRange) -> is_uint32 (specs.Size subgidRange) ->
  65536 <= specs.Size subuidRange -> 65536 <= specs.Size subgidRange ->
  forall uidMap gidMap,
    reverseMapByRange targetUID targetGID subuidRange subgidRange
      = (uidMap, gidMap) ->
    (resolve uidMap targetUID = Some 0 /\
     forall c, 0 <= c -> c < targetUID -> c < specs.Size subuidRange ->
       resolve uidMap c = Some (c + 1)) /\
    (resolve gidMap targetGID = Some 0 /\
     forall c, 0 <= c -> c < targetGID -> c < specs.Size subgidRange ->
       resolve gidMap c = Some (c + 1)).
Proof.
  intros HtU HtG HrU HrG _ _ uidMap gidMap Heq.
  assert (Hu : uidMap =
            fst (reverseMapByRange targetUID targetGID subuidRange subgidRange))
    by (rewrite Heq; reflexivity).
  assert (Hg : gidMap =
            snd (reverseMapByRange targetUID targetGID subuidRange subgidRange))
    by (rewrite Heq; reflexivity).
  rewrite reverseMapByRange_snd in Hg. subst uidMap gidMap.
  repeat split.
  - apply resolve_target; assumption.
  - intros c; apply resolve_below; assumption.
  - apply resolve_target; assumption.
  - intros c; apply resolve_below; assumption.
Qed.

Lemma reverseMapByRange_resolve_witness :
  resolve (fst (reverseMapByRange 1000 100 (sampleRange 65536)
                  (sampleRange 65536))) 1000 = Some 0 /\
  resolve (fst (reverseMapByRange 1000 100 (sampleRange 65536)
                  (sampleRange 65536))) 7 = Some 8 /\
  resolve (snd (reverseMapByRange 1000 100 (sampleRange 65536)
                  (sampleRange 65536))) 100 = Some 0.
Proof.
  destruct (reverseMapByRange_resolve 1000 100
              (sampleRange 65536) (sampleRange 65536)
              ltac:(unfold is_uint32, uint32_max; lia)
              ltac:(unfold is_uint32, uint32_max; lia)
              ltac:(unfold is_uint32, uint32_max; simpl; lia)
              ltac:(unfold is_uint32, uint32_max; simpl; lia)
              ltac:(simpl; lia) ltac:(simpl; lia)
              _ _ eq_refl) as [[Hu Hc] [Hg _]].
  split; [exact Hu |].
  split; [apply (Hc 7); simpl; lia | exact Hg].
Defined.

(** The table of the branch [target < range size], without wrap-around:
    the third entry starts after the target and holds
    [range size - target] IDs. *)
Lemma reverseMapByRange_inside t o rU rO :
  is_uint32 t -> is_uint32 (specs.Size rU) -> t < specs.Size rU ->
  fst (reverseMapByRange t o rU rO) =
    [ {| specs.ContainerID := 0; specs.HostID := 1; specs.Size := t |};
      {| specs.ContainerID := t; specs.HostID := 0; specs.Size := 1 |};
      {| specs.ContainerID := t + 1; specs.HostID := t + 1;
         specs.Size := specs.Size rU - t |} ].
Proof.
  unfold is_uint32, uint32_max. intros Ht Hr Hlt.
  rewrite reverseMapByRange_fst.
  destruct (Z.ltb_spec t (specs.Size rU)); [| lia].
  rewrite !wrap32_id by (unfold is_uint32, uint32_max; lia).
  reflexivity.
Qed.

Lemma resolve_inside t r c :
  0 <= t -> t < r ->
  resolve
    [ {| specs.ContainerID := 0; specs.HostID := 1; specs.Size := t |};
      {| specs.ContainerID := t; specs.HostID := 0; specs.Size := 1 |};
      {| specs.ContainerID := t + 1; specs.HostID := t + 1;
         specs.Size := r - t |} ] c =
    if (0 <=? c) && (c <? t) then Some (c + 1)
    else if c =? t then Some 0
    else if (t <? c) && (c <=? r) then Some c
    else None.
Proof.
  intros Ht Hlt. simpl. unfold covers; simpl.
  repeat match goal with
         | |- context [?a <=? ?b] => destruct (Z.leb_spec a b)
         | |- context [?a <? ?b] => destruct (Z.ltb_spec a b)
         | |- context [?a =? ?b] => destruct (Z.eqb_spec a b)
         end; simpl; try lia; try (f_equal; lia); reflexivity.
Qed.

(** C2 (as the code has it): for a target below the range size the table
    has exactly three entries: container IDs [[0, t)] from host IDs
    [[1, t+1)]; container ID [t] from host ID 0; and a third entry of size
    [r - t] that maps the container IDs [[t+1, r+1)] to themselves.  The
    table covers exactly the container IDs [[0, r]]. *)
Theorem reverseMapByRange_three_entries
    (targetUID targetGID : Z) (subuidRange subgidRange : specs.LinuxIDMapping) :
  is_uint32 targetUID -> is_uint32 targetGID ->
  is_uint32 (specs.Size subuidRange) -> is_uint32 (specs.Size subgidRange) ->
  forall uidMap gidMap,
    reverseMapByRange targetUID targetGID subuidRange subgidRange
      = (uidMap, gidMap) ->
    (targetUID < specs.Size subuidRange ->
     uidMap =
       [ {| specs.ContainerID := 0; specs.HostID := 1;
            specs.Size := targetUID |};
         {| specs.ContainerID := targetUID; specs.HostID := 0;
            specs.Size := 1 |};
         {| specs.ContainerID := targetUID + 1;
            specs.HostID := targetUID + 1;
            specs.Size := specs.Size subuidRange - targetUID |} ] /\
     (forall c, targetUID < c <= specs.Size subuidRange ->
        resolve uidMap c = Some c) /\
     (forall c, resolve uidMap c <> None <->
        0 <= c <= specs.Size subuidRange)) /\
    (targetGID < specs.Size subgidRange ->
     gidMap =
       [ {| specs.ContainerID := 0; specs.HostID := 1;
            specs.Size := targetGID |};
         {| specs.ContainerID := targetGID; specs.HostID := 0;
            specs.Size := 1 |};
         {| specs.ContainerID := targetGID + 1;
            specs.HostID := targetGID + 1;
            specs.Size := specs.Size subgidRange - targetGID |} ] /\
     (forall c, targetGID < c <= specs.Size subgidRange ->
        resolve gidMap c = Some c) /\
     (forall c, resolve gidMap c <> None <->
        0 <= c <= specs.Size subgidRange)).
Proof.
  intros HtU HtG HrU HrG uidMap gidMap Heq.
  assert (Hu : uidMap =
            fst (reverseMapByRange targetUID targetGID subuidRange subgidRange))
    by (rewrite Heq; reflexivity).
  assert (Hg : gidMap =
            snd (reverseMapByRange targetUID targetGID subuidRange subgidRange))
    by (rewrite Heq; reflexivity).
  rewrite reverseMapByRange_snd in Hg. clear Heq.
  assert (Hone : forall t o rU rO tbl,
            is_uint32 t -> is_uint32 (specs.Size rU) ->
            tbl = fst (reverseMapByRange t o rU rO) ->
            t < specs.Size rU ->
            tbl =
              [ {| specs.ContainerID := 0; specs.HostID := 1;
                   specs.Size := t |};
                {| specs.ContainerID := t; specs.HostID := 0;
                   specs.Size := 1 |};
                {| specs.ContainerID := t + 1; specs.HostID := t + 1;
                   specs.Size := specs.Size rU - t |} ] /\
            (forall c, t < c <= specs.Size rU -> resolve tbl c = Some c) /\
            (forall c, resolve tbl c <> None <-> 0 <= c <= specs.Size rU)).
  { intros t o rU rO tbl Ht Hr -> Hlt.
    rewrite (reverseMapByRange_inside t o rU rO Ht Hr Hlt).
    assert (H0 : 0 <= t) by (destruct Ht; assumption).
    split; [reflexivity |]. split.
    - intros c Hc. rewrite (resolve_inside t _ c H0 Hlt).
      repeat match goal with
             | |- context [?a <=? ?b] => destruct (Z.leb_spec a b)
             | |- context [?a <? ?b] => destruct (Z.ltb_spec a b)
             | |- context [?a =? ?b] => destruct (Z.eqb_spec a b)
             end; simpl; try lia; reflexivity.
    - intros c. rewrite (resolve_inside t _ c H0 Hlt).
      repeat match goal with
             | |- context [?a <=? ?b] => destruct (Z.leb_spec a b)
             | |- context [?a <? ?b] => destruct (Z.ltb_spec a b)
             | |- context [?a =? ?b] => destruct (Z.eqb_spec a b)
             end; simpl; split; intros; try lia; congruence. }
  split; intros Hlt.
  - exact (Hone _ _ _ _ _ HtU HrU Hu Hlt).
  - exact (Hone _ _ _ _ _ HtG HrG Hg Hlt).
Qed.

Lemma reverseMapByRange_three_entries_witness :
  fst (reverseMapByRange 1000 100 (sampleRange 65536) (sampleRange 65536)) =
    [ {| specs.ContainerID := 0; specs.HostID := 1; specs.Size := 1000 |};
      {| specs.ContainerID := 1000; specs.HostID := 0; specs.Size := 1 |};
      {| specs.ContainerID := 1001; specs.HostID := 1001;
         specs.Size := 64536 |} ].
Proof.
  destruct (reverseMapByRange_three_entries 1000 100
              (sampleRange 65536) (sampleRange 65536)
              ltac:(unfold is_uint32, uint32_max; lia)
              ltac:(unfold is_uint32, uint32_max; lia)
              ltac:(unfold is_uint32, uint32_max; simpl; lia)
              ltac:(unfold is_uint32, uint32_max; simpl; lia)
              _ _ eq_refl) as [Hu _].
  destruct (Hu ltac:(simpl; lia)) as [Htbl _].
  exact Htbl.
Defined.

(** C2, as stated, fails: for target 1000 and a range of 65536 IDs the
    third entry holds 64536 IDs, not 65536 - 1000 - 1, and the table covers
    the container ID 65536, which is not below the range size. *)
Lemma reverseMapByRange_three_entries_counterexample :
  let uidMap :=
    fst (reverseMapByRange 1000 1000 (sampleRange 65536) (sampleRange 65536)) in
  uidMap <>
    [ {| specs.ContainerID := 0; specs.HostID := 1; specs.Size := 1000 |};
      {| specs.ContainerID := 1000; specs.HostID := 0; specs.Size := 1 |};
      {| specs.ContainerID := 1001; specs.HostID := 1001;
         specs.Size := 65536 - 1000 - 1 |} ] /\
  (specs.Size <$> uidMap !! 2%nat) = Some (65536 - 1000) /\
  resolve uidMap 65536 = Some 65536.
Proof. split; [discriminate | split; reflexivity]. Qed.

(** C3 (as the code has it): for a target of at least 1 and a range of
    at least 65536 IDs, in either branch, every entry of the table has
    size at least 1; the function produces a table of two or three entries
    for every input. *)
Theorem reverseMapByRange_sizes
    (targetUID targetGID : Z) (subuidRange subgidRange : specs.LinuxIDMapping) :
  is_uint32 targetUID -> is_uint32 targetGID ->
  is_uint32 (specs.Size subuidRange) -> is_uint32 (specs.Size subgidRange) ->
  65536 <= specs.Size subuidRange -> 65536 <= specs.Size subgidRange ->
  exists uidMap gidMap,
    reverseMapByRange targetUID targetGID subuidRange subgidRange
      = (uidMap, gidMap) /\
    (2 <= length uidMap <= 3)%nat /\ (2 <= length gidMap <= 3)%nat /\
    (1 <= targetUID -> Forall (fun e => 1 <= specs.Size e) uidMap) /\
    (1 <= targetGID -> Forall (fun e => 1 <= specs.Size e) gidMap).
Proof.
  intros HtU HtG HrU HrG HsU HsG.
  eexists _, _. split; [reflexivity |].
  unfold is_uint32, uint32_max in *.
  assert (Hone : forall t r, 0 <= t <= 2 ^ 32 - 1 -> 0 <= r <= 2 ^ 32 - 1 ->
            65536 <= r -> 1 <= t ->
            Forall (fun e => 1 <= specs.Size e)
              (if t <? r then
                 [ {| specs.ContainerID := 0; specs.HostID := 1;
                      specs.Size := t |};
                   {| specs.ContainerID := t; specs.HostID := 0;
                      specs.Size := 1 |};
                   {| specs.ContainerID := wrap32 (t + 1);
                      specs.HostID := wrap32 (t + 1);
                      specs.Size := wrap32 (r - t) |} ]
               else
                 [ {| specs.ContainerID := 0; specs.HostID := 1;
                      specs.Size := r |};
                   {| specs.ContainerID := t; specs.HostID := 0;
                      specs.Size := 1 |} ])).
  { intros t r Ht Hr Hs H1.
    destruct (Z.ltb_spec t r).
    - rewrite (wrap32_id (r - t)) by (unfold is_uint32, uint32_max; lia).
      repeat constructor; simpl; lia.
    - repeat constructor; simpl; lia. }
  repeat split.
  - destruct (targetUID <? specs.Size subuidRange); simpl; lia.
  - destruct (targetUID <? specs.Size subuidRange); simpl; lia.
  - destruct (targetGID <? specs.Size subgidRange); simpl; lia.
  - destruct (targetGID <? specs.Size subgidRange); simpl; lia.
  - intros H1. apply Hone; assumption.
  - intros H1. apply Hone; assumption.
Qed.

Lemma reverseMapByRange_sizes_witness :
  exists uidMap gidMap,
    reverseMapByRange 1000 70000 (sampleRange 65536) (sampleRange 65536)
      = (uidMap, gidMap) /\
    Forall (fun e => 1 <= specs.Size e) uidMap /\
    Forall (fun e => 1 <= specs.Size e) gidMap.
Proof.
  destruct (reverseMapByRange_sizes 1000 70000
              (sampleRange 65536) (sampleRange 65536)
              ltac:(unfold is_uint32, uint32_max; lia)
              ltac:(unfold is_uint32, uint32_max; lia)
              ltac:(unfold is_uint32, uint32_max; simpl; lia)
              ltac:(unfold is_uint32, uint32_max; simpl; lia)
              ltac:(simpl; lia) ltac:(simpl; lia))
    as (uidMap & gidMap & Heq & _ & _ & Hu & Hg).
  exists uidMap, gidMap.
  split; [exact Heq |].
  split; [apply Hu; lia | apply Hg; lia].
Defined.

(** C3, as stated, fails at target 0: the first entry of the table then
    has size 0. *)
Lemma reverseMapByRange_sizes_counterexample :
  is_uint32 0 /\ 65536 <= specs.Size (sampleRange 65536) /\
  ~ Forall (fun e => 1 <= specs.Size e)
      (fst (reverseMapByRange 0 0 (sampleRange 65536) (sampleRange 65536))).
Proof.
  split; [unfold is_uint32, uint32_max; lia |].
  split; [simpl; lia |].
  intros H. apply Forall_cons in H as [H _]. simpl in H. lia.
Qed.

(** C4: [getReverseUserMaps] fails, returning no table, whenever the
    sub-UID range or the sub-GID range found for the host user holds fewer
    than 65536 IDs; it returns tables, those of [reverseMapByRange], exactly
    when both ranges are found and hold at least 65536 IDs. *)
Theorem getReverseUserMaps_range_floor
    (w : World) (hostUID targetUID targetGID : Z) :
  (forall r, GetIDRange w SubUIDFile hostUID = Ok r -> specs.Size r < 65536 ->
     exists e, getReverseUserMaps w hostUID targetUID targetGID = Err e) /\
  (forall r, GetIDRange w SubGIDFile hostUID = Ok r -> specs.Size r < 65536 ->
     exists e, getReverseUserMaps w hostUID targetUID targetGID = Err e) /\
  (forall maps,
     getReverseUserMaps w hostUID targetUID targetGID = Ok maps <->
     exists ru rg,
       GetIDRange w SubUIDFile hostUID = Ok ru /\
       GetIDRange w SubGIDFile hostUID = Ok rg /\
       65536 <= specs.Size ru /\ 65536 <= specs.Size rg /\
       maps = reverseMapByRange targetUID targetGID ru rg).
Proof.
  unfold getReverseUserMaps.
  split; [| split].
  - intros r Hr Hsmall. rewrite Hr. simpl.
    destruct (Z.ltb_spec (specs.Size r) 65536); [eauto | lia].
  - intros r Hr Hsmall.
    destruct (GetIDRange w SubUIDFile hostUID) as [ru | e]; simpl; [| eauto].
    destruct (specs.Size ru <? 65536); [eauto |].
    rewrite Hr. simpl.
    destruct (Z.ltb_spec (specs.Size r) 65536); [eauto | lia].
  - intros maps. split.
    + destruct (GetIDRange w SubUIDFile hostUID) as [ru | e]; simpl;
        [| discriminate].
      destruct (Z.ltb_spec (specs.Size ru) 65536); [discriminate |].
      destruct (GetIDRange w SubGIDFile hostUID) as [rg | e]; simpl;
        [| discriminate].
      destruct (Z.ltb_spec (specs.Size rg) 65536); [discriminate |].
      intros [= <-]. exists ru, rg. repeat split; assumption.
    + intros (ru & rg & -> & -> & Hu & Hg & ->). simpl.
      destruct (Z.ltb_spec (specs.Size ru) 65536); [lia |].
      destruct (Z.ltb_spec (specs.Size rg) 65536); [lia |].
      reflexivity.
Qed.

Lemma getReverseUserMaps_range_floor_witness :
  (exists e, getReverseUserMaps (hostWith 1001 65535 65536) 1001 1000 1000
             = Err e) /\
  (exists e, getReverseUserMaps (hostWith 1001 65536 4096) 1001 1000 1000
             = Err e) /\
  getReverseUserMaps (hostWith 1001 65536 65536) 1001 1000 1000 =
    Ok (reverseMapByRange 1000 1000 (sampleRange 65536) (sampleRange 65536)).
Proof.
  split; [| split].
  - apply (proj1 (getReverseUserMaps_range_floor
                    (hostWith 1001 65535 65536) 1001 1000 1000)
             (sampleRange 65535)); [reflexivity | simpl; lia].
  - apply (proj1 (proj2 (getReverseUserMaps_range_floor
                    (hostWith 1001 65536 4096) 1001 1000 1000))
             (sampleRange 4096)); [reflexivity | simpl; lia].
  - apply (proj2 (getReverseUserMaps_range_floor
                    (hostWith 1001 65536 65536) 1001 1000 1000)).
    exists (sampleRange 65536), (sampleRange 65536).
    repeat split; simpl; lia.
Defined.

End IDMappingFacts.

(** ** Capabilities *)

Section CapabilityFacts.

Lemma elem_of_RemoveDuplicated_from (seen caps : list string) (c : string) :
  c ∈ RemoveDuplicated_from seen caps <-> c ∈ caps /\ c ∉ seen.
Proof.
  revert seen. induction caps as [| x caps IH]; intros seen; simpl.
  - split; [intros H; inversion H | intros [H _]; inversion H].
  - destruct (decide (x ∈ seen)) as [Hin | Hnin].
    + rewrite IH, elem_of_cons. split.
      * intros [H1 H2]. auto.
      * intros [[-> | H1] H2]; [contradiction | auto].
    + rewrite !elem_of_cons, IH, elem_of_cons. split.
      * intros [-> | [H1 H2]]; [auto | split; [auto |]].
        intros H. apply H2. auto.
      * intros [[-> | H1] H2]; [auto |].
        destruct (decide (c = x)) as [-> | Hne]; [auto |].
        right. split; [assumption |]. intros [? | ?]; contradiction.
Qed.

Lemma NoDup_RemoveDuplicated_from (seen caps : list string) :
  NoDup (RemoveDuplicated_from seen caps).
Proof.
  revert seen. induction caps as [| x caps IH]; intros seen; simpl.
  - constructor.
  - destruct (decide (x ∈ seen)); [apply IH |].
    apply NoDup_cons. split; [| apply IH].
    rewrite elem_of_RemoveDuplicated_from, elem_of_cons.
    intros [_ H]. apply H. auto.
Qed.

Lemma elem_of_RemoveDuplicated (caps : list string) (c : string) :
  c ∈ RemoveDuplicated caps <-> c ∈ caps.
Proof.
  unfold RemoveDuplicated. rewrite elem_of_RemoveDuplicated_from.
  split; [intros [H _]; exact H | intros H; split; [exact H |]].
  intros H'. inversion H'.
Qed.

Lemma elem_of_Without (collection exclude : list string) (c : string) :
  c ∈ Without collection exclude <-> c ∈ collection /\ c ∉ exclude.
Proof. unfold Without. rewrite list_elem_of_filter. tauto. Qed.

(** The set computed for the bounding set: the base and the added names,
    each once, without the dropped ones. *)
Lemma bounding_set (base add dropped : list string) :
  NoDup (Without (RemoveDuplicated (base ++ add)) dropped) /\
  forall c, c ∈ Without (RemoveDuplicated (base ++ add)) dropped <->
            (c ∈ base \/ c ∈ add) /\ c ∉ dropped.
Proof.
  split.
  - unfold Without. apply NoDup_filter, NoDup_RemoveDuplicated_from.
  - intros c. rewrite elem_of_Without, elem_of_RemoveDuplicated, elem_of_app.
    tauto.
Qed.

(** C5: with [base] the base capabilities and [add], [dropped] the
    recognised names of the add and drop lists, let [bounding] be
    [base ++ add] with duplicates collapsed and the dropped names removed.
    For target UID 0 the permitted, effective and bounding sets are
    [bounding] and the inheritable and ambient sets are empty.  For any
    other target UID the permitted, effective, inheritable and ambient sets
    are [add] without the dropped names, the bounding set is [bounding],
    and the former is included in the latter. *)
Theorem getProcessCapabilities_sets (w : World) (l : Launcher) (targetUID : Z)
    (base add dropped ignoredAdd ignoredDrop : list string) :
  getBaseCapabilities w l = Ok base ->
  Split w (launcher.AddCaps (cfg l)) = (add, ignoredAdd) ->
  Split w (launcher.DropCaps (cfg l)) = (dropped, ignoredDrop) ->
  let bounding := Without (RemoveDuplicated (base ++ add)) dropped in
  let explicit := Without add dropped in
  (NoDup bounding /\
   forall c, c ∈ bounding <-> (c ∈ base \/ c ∈ add) /\ c ∉ dropped) /\
  (forall c, c ∈ explicit <-> c ∈ add /\ c ∉ dropped) /\
  (targetUID = 0%Z ->
   getProcessCapabilities w l targetUID =
     Ok {| specs.Permitted := bounding;
           specs.Effective := bounding;
           specs.Bounding := bounding;
           specs.Inheritable := [];
           specs.Ambient := [] |}) /\
  (targetUID <> 0%Z ->
   getProcessCapabilities w l targetUID =
     Ok {| specs.Permitted := explicit;
           specs.Effective := explicit;
           specs.Bounding := bounding;
           specs.Inheritable := explicit;
           specs.Ambient := explicit |} /\
   explicit ⊆ bounding).
Proof.
  intros Hbase Hadd Hdrop bounding explicit.
  split; [apply bounding_set |].
  split; [intros c; apply elem_of_Without |].
  unfold getProcessCapabilities. rewrite Hbase, Hadd, Hdrop. simpl.
  split.
  - intros ->. reflexivity.
  - intros Hne. destruct (Z.eqb_spec targetUID 0); [contradiction |].
    split; [reflexivity |].
    intros c. unfold explicit, bounding.
    rewrite (proj2 (bounding_set base add dropped) c), elem_of_Without.
    tauto.
Qed.

Lemma getProcessCapabilities_sets_witness :
  getProcessCapabilities sampleWorld sampleLauncher 0 =
    Ok {| specs.Permitted :=
            ["CAP_KILL"; "CAP_NET_RAW"; "CAP_SETUID"; "CAP_SYS_ADMIN"];
          specs.Effective :=
            ["CAP_KILL"; "CAP_NET_RAW"; "CAP_SETUID"; "CAP_SYS_ADMIN"];
          specs.Bounding :=
            ["CAP_KILL"; "CAP_NET_RAW"; "CAP_SETUID"; "CAP_SYS_ADMIN"];
          specs.Inheritable := [];
          specs.Ambient := [] |} /\
  getProcessCapabilities sampleWorld sampleLauncher 1000 =
    Ok {| specs.Permitted := ["CAP_SYS_ADMIN"; "CAP_KILL"];
          specs.Effective := ["CAP_SYS_ADMIN"; "CAP_KILL"];
          specs.Bounding :=
            ["CAP_KILL"; "CAP_NET_RAW"; "CAP_SETUID"; "CAP_SYS_ADMIN"];
          specs.Inheritable := ["CAP_SYS_ADMIN"; "CAP_KILL"];
          specs.Ambient := ["CAP_SYS_ADMIN"; "CAP_KILL"] |}.
Proof.
  split.
  - destruct (getProcessCapabilities_sets sampleWorld sampleLauncher 0
                (DefaultCaps sampleWorld)
                ["CAP_SYS_ADMIN"; "CAP_KILL"; "CAP_CHOWN"] ["CAP_CHOWN"] [] []
                eq_refl eq_refl eq_refl) as (_ & _ & Hroot & _).
    exact (Hroot eq_refl).
  - destruct (getProcessCapabilities_sets sampleWorld sampleLauncher 1000
                (DefaultCaps sampleWorld)
                ["CAP_SYS_ADMIN"; "CAP_KILL"; "CAP_CHOWN"] ["CAP_CHOWN"] [] []
                eq_refl eq_refl eq_refl) as (_ & _ & _ & Huser).
    exact (proj1 (Huser ltac:(discriminate))).
Defined.

End CapabilityFacts.

(** ** The assembled process *)

Section ProcessFacts.

Lemma bind_ok_inv {A B : Type} (r : result A) (k : A -> result B) (b : B) :
  bind r k = Ok b -> exists a, r = Ok a /\ k a = Ok b.
Proof. destruct r as [a | e]; simpl; [eauto | discriminate]. Qed.

(** What a successful [getProcess] returns, field by field. *)
Lemma getProcess_ok_inv (w : World) (l : Launcher) (imgSpec : imgspecv1.Image)
    (bundle : string) (ep : launcher.ExecParams) (u : specs.User)
    (p : specs.Process) :
  getProcess w l imgSpec bundle ep u = Ok p ->
  exists rtEnv cwd caps args,
    getProcess_rtEnv w l imgSpec bundle ep = Ok rtEnv /\
    getProcessCwd l = Ok cwd /\
    getProcessCapabilities w l (specs.UID u) = Ok caps /\
    getProcess_args w l imgSpec ep = Ok args /\
    p = {| specs.Args := args;
           specs.Capabilities := caps;
           specs.Cwd := cwd;
           specs.Env := getProcessEnv w imgSpec rtEnv;
           specs.NoNewPrivileges := launcher.NoPrivs (cfg l);
           specs.User' := u;
           specs.Terminal := getProcessTerminal w |}.
Proof.
  unfold getProcess. intros H.
  apply bind_ok_inv in H as (rtEnv & HrtEnv & H).
  apply bind_ok_inv in H as (cwd & Hcwd & H).
  apply bind_ok_inv in H as (caps & Hcaps & H).
  apply bind_ok_inv in H as (args & Hargs & H).
  exists rtEnv, cwd, caps, args.
  repeat (split; [assumption |]).
  injection H as <-. destruct (launcher.NoPrivs (cfg l)); reflexivity.
Qed.

(** C6: with no explicit arguments, [getProcessArgs] returns the explicit
    process name alone when there is one, and the image entrypoint followed
    by the image default command when there is none; in the default mode
    (no native SIF, action other than [shell]) these are the arguments of
    the process [getProcess] assembles. *)
Theorem getProcessArgs_no_args (imageSpec : imgspecv1.Image)
    (ep : launcher.ExecParams) :
  launcher.Args ep = [] ->
  (launcher.Process ep <> "" ->
   getProcessArgs imageSpec ep = [launcher.Process ep]) /\
  (launcher.Process ep = "" ->
   getProcessArgs imageSpec ep =
     imgspecv1.Entrypoint (imgspecv1.Config imageSpec) ++
     imgspecv1.Cmd (imgspecv1.Config imageSpec)) /\
  (forall w l bundle u p,
     nativeSIF l = false -> launcher.Action ep <> "shell" ->
     getProcess w l imageSpec bundle ep u = Ok p ->
     specs.Args p = getProcessArgs imageSpec ep).
Proof.
  intros Hargs. unfold getProcessArgs. rewrite Hargs. simpl.
  split; [| split].
  - intros Hp.
    destruct (decide (launcher.Process ep ≠ "")); [| contradiction].
    destruct (decide (launcher.Process ep = "")); [contradiction |].
    reflexivity.
  - intros Hp.
    destruct (decide (launcher.Process ep ≠ "")); [contradiction |].
    destruct (decide (launcher.Process ep = "")); [| contradiction].
    reflexivity.
  - intros w l bundle u p Hsif Hact Hp.
    apply getProcess_ok_inv in Hp as (rtEnv & cwd & caps & args & _ & _ & _
                                      & Ha & ->).
    unfold getProcess_args in Ha. rewrite Hsif in Ha.
    destruct (decide (launcher.Action ep = "shell")); [contradiction |].
    injection Ha as <-. simpl.
    unfold getProcessArgs. rewrite Hargs. reflexivity.
Qed.

Lemma getProcessArgs_no_args_witness :
  getProcessArgs sampleImage (sampleExec "") = ["/bin/foo"; "--flag"] /\
  getProcessArgs sampleImage (sampleExec "/bin/bar") = ["/bin/bar"].
Proof.
  split.
  - exact (proj1 (proj2 (getProcessArgs_no_args sampleImage (sampleExec "")
                           eq_refl)) eq_refl).
  - exact (proj1 (getProcessArgs_no_args sampleImage (sampleExec "/bin/bar")
                    eq_refl) ltac:(discriminate)).
Defined.

End ProcessFacts.

(** ** Namespaces *)

Section NamespaceFacts.

(** C9: on a spec whose namespace list is the default one (IPC, PID,
    Mount), [addNamespaces] with only the PID and IPC flags set leaves the
    list as it is, without duplicate or further entries, and logs the two
    notices; for any flags, when the host UID is resolved (or not asked
    for), the list is the default one followed by Network, User and UTS, in
    this order, each present when its flag is set and, for User, when the
    host UID is 0 as well; no namespace type occurs twice. *)
Theorem addNamespaces_composition (w : World) (spec : specs.Spec)
    (ns : launcher.Namespaces) :
  specs.Namespaces (specs.Linux' spec) = defaultNamespaces ->
  forall st err, addNamespaces w spec ns = (st, err) ->
  let result := specs.Namespaces (specs.Linux' (nsSpec st)) in
  (launcher.PID ns = true -> launcher.IPC ns = true ->
   launcher.Net ns = false -> launcher.User ns = false ->
   launcher.UTS ns = false ->
   err = None /\ result = defaultNamespaces /\
   NoDup (specs.Type' <$> result) /\ nsLog st = [noticeIPC; noticePID]) /\
  (forall uid, (launcher.User ns = true -> Getuid w = Ok uid) ->
   err = None /\
   result =
     defaultNamespaces ++
     (if launcher.Net ns then [namespace specs.NetworkNamespace] else []) ++
     (if launcher.User ns && (uid =? 0)%Z
      then [namespace specs.UserNamespace] else []) ++
     (if launcher.UTS ns then [namespace specs.UTSNamespace] else []) /\
   NoDup (specs.Type' <$> result)) /\
  (forall e, launcher.User ns = true -> Getuid w = Err e ->
   err = Some e /\
   result =
     defaultNamespaces ++
     (if launcher.Net ns then [namespace specs.NetworkNamespace] else [])).
Proof.
  intros Hdef st err Hrun result. subst result.
  unfold addNamespaces in Hrun.
  destruct ns as [user uts pid ipc net]. simpl in *.
  split; [| split].
  - intros -> -> -> -> ->. simpl in Hrun.
    injection Hrun as <- <-. simpl.
    repeat split; [assumption |].
    rewrite Hdef. apply (bool_decide_unpack _). vm_compute. exact I.
  - intros uid Huid.
    destruct user.
    + rewrite (Huid eq_refl) in Hrun.
      destruct (uid =? 0)%Z, uts, pid, ipc, net; simpl in Hrun;
        injection Hrun as <- <-; simpl; rewrite Hdef;
        (split; [reflexivity |]); (split; [reflexivity |]);
        apply (bool_decide_unpack _); vm_compute; exact I.
    + destruct uts, pid, ipc, net; simpl in Hrun;
        injection Hrun as <- <-; simpl; rewrite Hdef;
        (split; [reflexivity |]); (split; [reflexivity |]);
        apply (bool_decide_unpack _); vm_compute; exact I.
  - intros e -> He. rewrite He in Hrun.
    destruct pid, ipc, net; simpl in Hrun; injection Hrun as <- <-; simpl;
      rewrite Hdef; split; reflexivity.
Qed.

Lemma addNamespaces_composition_witness :
  specs.Namespaces
    (specs.Linux'
       (nsSpec (fst (addNamespaces sampleWorld (minimalSpec sampleWorld)
                       (launcher.Namespaces' sampleOptions)))))
    = defaultNamespaces /\
  specs.Namespaces
    (specs.Linux'
       (nsSpec (fst (addNamespaces rootWorld (minimalSpec rootWorld)
                       allNamespaces))))
    = defaultNamespaces ++
      [ namespace specs.NetworkNamespace; namespace specs.UserNamespace;
        namespace specs.UTSNamespace ].
Proof.
  split.
  - destruct (addNamespaces_composition sampleWorld (minimalSpec sampleWorld)
                (launcher.Namespaces' sampleOptions) eq_refl _ _ eq_refl)
      as (H & _ & _).
    exact (proj1 (proj2 (H eq_refl eq_refl eq_refl eq_refl eq_refl))).
  - destruct (addNamespaces_composition rootWorld (minimalSpec rootWorld)
                allNamespaces eq_refl _ _ eq_refl) as (_ & H & _).
    exact (proj1 (proj2 (H 0%Z (fun _ => eq_refl)))).
Defined.

End NamespaceFacts.

(** ** Strings *)

Section StringFacts.

Lemma HasPrefix_app (p s : string) : HasPrefix (p +:+ s) p = true.
Proof.
  induction p as [| c p IH]; simpl; [reflexivity |].
  destruct (decide (c = c)); [exact IH | contradiction].
Qed.

Lemma drop_string_app (p s : string) :
  drop_string (String.length p) (p +:+ s) = s.
Proof. induction p as [| c p IH]; simpl; [reflexivity | exact IH]. Qed.

Lemma TrimPrefix_app (p s : string) : TrimPrefix (p +:+ s) p = s.
Proof. unfold TrimPrefix. rewrite HasPrefix_app. apply drop_string_app. Qed.

Lemma string_app_assoc (a b c : string) :
  (a +:+ b) +:+ c = a +:+ (b +:+ c).
Proof.
  induction a as [| x a IH]; [reflexivity |].
  change (String x ((a +:+ b) +:+ c) = String x (a +:+ (b +:+ c))).
  rewrite IH. reflexivity.
Qed.

(** A prefix free of [c] that starts [s] followed by [c] starts [s]. *)
Lemma HasPrefix_before_rune (p s t : string) (c : Ascii.ascii) :
  ContainsRune p c = false ->
  HasPrefix (s +:+ String c t) p = true -> HasPrefix s p = true.
Proof.
  revert s. induction p as [| x p IH]; intros s Hc H; [reflexivity |].
  simpl in Hc. apply orb_false_iff in Hc as [Hx Hp].
  apply bool_decide_eq_false in Hx.
  destruct s as [| d s]; simpl in *.
  - destruct (decide (c = x)); [congruence | discriminate].
  - destruct (decide (d = x)); [apply IH; assumption | discriminate].
Qed.

Lemma Contains_occurrences (s substr : string) :
  Contains s substr = true <-> 0 < occurrences s substr.
Proof.
  induction s as [| c s IH]; simpl.
  - destruct (HasPrefix "" substr); simpl; split; intros; (lia || done).
  - destruct (HasPrefix (String c s) substr); simpl; [split; intros; (lia || done) |].
    exact IH.
Qed.

Lemma occurrences_before_rune (p s t : string) (c : Ascii.ascii) :
  ContainsRune p c = false -> Contains s p = false ->
  occurrences (s +:+ String c t) p = occurrences (String c t) p.
Proof.
  intros Hc. induction s as [| d s IH]; intros Hs; [reflexivity |].
  simpl in Hs. apply orb_false_iff in Hs as [Hpre Hs].
  change (String d s +:+ String c t) with (String d (s +:+ String c t)).
  cbn [occurrences]. rewrite (IH Hs).
  destruct (HasPrefix (String d (s +:+ String c t)) p) eqn:E; [| reflexivity].
  apply (HasPrefix_before_rune p (String d s) t c Hc) in E. congruence.
Qed.

Lemma occurrences_withApptainerLibs (ld : string) :
  occurrences (withApptainerLibs ld) apptainerLibs =
    Nat.max 1 (occurrences ld apptainerLibs).
Proof.
  unfold withApptainerLibs.
  destruct (Contains ld apptainerLibs) eqn:E; simpl.
  - apply Contains_occurrences in E. lia.
  - assert (Hz : occurrences ld apptainerLibs = 0).
    { destruct (occurrences ld apptainerLibs) eqn:E'; [reflexivity |].
      assert (Contains ld apptainerLibs = true)
        by (apply Contains_occurrences; lia).
      congruence. }
    rewrite Hz. simpl.
    assert (Hsep : forall s, Contains s apptainerLibs = false ->
              occurrences (s +:+ ":" +:+ apptainerLibs) apptainerLibs = 1).
    { intros s Hs.
      change (":" +:+ apptainerLibs) with (String ":"%char apptainerLibs).
      rewrite (occurrences_before_rune apptainerLibs s apptainerLibs ":"%char)
        by (reflexivity || assumption).
      reflexivity. }
    destruct ld as [| d ld].
    + reflexivity.
    + unfold TrimPrefix.
      change (String d ld +:+ ":" +:+ apptainerLibs)
        with (String d (ld +:+ ":" +:+ apptainerLibs)).
      cbn [Contains] in E. apply orb_false_iff in E as [Hpre E].
      cbn [HasPrefix].
      destruct (decide (d = ":"%char)) as [-> | Hd].
      * cbn [String.length drop_string]. apply Hsep, E.
      * change (String d (ld +:+ ":" +:+ apptainerLibs))
          with (String d ld +:+ ":" +:+ apptainerLibs).
        apply Hsep. cbn [Contains]. rewrite Hpre, E. reflexivity.
Qed.

End StringFacts.

(** ** The process environment *)

Section EnvironmentFacts.

Lemma lookupEnvList_SetProcessEnv (key value : string) (env : list string) :
  lookupEnvList key (SetProcessEnv key value env) = Some value.
Proof.
  assert (Hnew : forall rest,
            lookupEnvList key ((key +:+ "=" +:+ value) :: rest) = Some value).
  { intros rest. simpl.
    rewrite <- (string_app_assoc key "=" value).
    rewrite HasPrefix_app, TrimPrefix_app. reflexivity. }
  induction env as [| e env IH]; [apply Hnew |].
  cbn [SetProcessEnv].
  destruct (HasPrefix e (key +:+ "=")) eqn:E; [apply Hnew |].
  cbn [lookupEnvList]. rewrite E. exact IH.
Qed.

(** Writing a key leaves the value of a key alone when no entry can be one
    of both. *)
Lemma lookupEnvList_SetProcessEnv_other (key other value : string)
    (env : list string) :
  (forall e, HasPrefix e (other +:+ "=") = true ->
             HasPrefix e (key +:+ "=") = false) ->
  lookupEnvList key (SetProcessEnv other value env) = lookupEnvList key env.
Proof.
  intros Hdis.
  assert (Hnew : HasPrefix (other +:+ "=" +:+ value) (key +:+ "=") = false).
  { apply Hdis. rewrite <- (string_app_assoc other "=" value).
    apply HasPrefix_app. }
  induction env as [| e env IH]; cbn [SetProcessEnv lookupEnvList].
  - rewrite Hnew. reflexivity.
  - destruct (HasPrefix e (other +:+ "=")) eqn:E; cbn [lookupEnvList].
    + rewrite Hnew, (Hdis e E). reflexivity.
    + rewrite IH. reflexivity.
Qed.

Lemma PATH_not_LD_LIBRARY_PATH (e : string) :
  HasPrefix e ("LD_LIBRARY_PATH" +:+ "=") = true ->
  HasPrefix e ("PATH" +:+ "=") = false.
Proof.
  destruct e as [| c e]; [discriminate |]. simpl.
  destruct (decide (c = "L"%char)) as [-> | ?]; [| discriminate].
  intros _. reflexivity.
Qed.

Lemma range_ok_order (w : World) (m : gmap string string) :
  range_ok w ->
  NoDup (RangeOrder w m).*1 /\ list_to_map (RangeOrder w m) = m.
Proof.
  intros Hok. specialize (Hok m). unfold range_order in Hok.
  assert (Hnd : NoDup (RangeOrder w m).*1).
  { rewrite Hok. apply NoDup_fst_map_to_list. }
  split; [exact Hnd |].
  rewrite (list_to_map_proper _ _ Hnd Hok). apply list_to_map_to_list.
Qed.

(** The four variables of [getProcessEnv] after its loop over the runtime
    environment: the runtime value where the key is set, the value before
    the loop otherwise. *)
Lemma foldl_applyRuntimeVar (order : list (string * string)) (st : envVars) :
  NoDup order.*1 ->
  let m : gmap string string := list_to_map order in
  let st' := foldl applyRuntimeVar st order in
  path st' = default (path st) (m !! "PATH") /\
  appendPath st' = default (appendPath st) (m !! "APPEND_PATH") /\
  prependPath st' = default (prependPath st) (m !! "PREPEND_PATH") /\
  ldLibraryPath st' = default (ldLibraryPath st) (m !! "LD_LIBRARY_PATH").
Proof.
  revert st. induction order as [| [k v] order IH]; intros st Hnd.
  - simpl. rewrite !lookup_empty. simpl. auto.
  - rewrite fmap_cons in Hnd. simpl in Hnd.
    apply NoDup_cons in Hnd as [Hk Hnd].
    cbn [foldl list_to_map]. cbv zeta.
    destruct (IH (applyRuntimeVar st (k, v)) Hnd) as (Hp & Ha & Hpp & Hl).
    cbv zeta in Hp, Ha, Hpp, Hl. rewrite Hp, Ha, Hpp, Hl. clear Hp Ha Hpp Hl IH.
    assert (Hnone : (list_to_map order : gmap string string) !! k = None)
      by (apply not_elem_of_list_to_map_1; exact Hk).
    unfold applyRuntimeVar. simpl.
    repeat case_decide; subst; simpl;
      rewrite ?lookup_insert_eq, ?Hnone; simpl;
      rewrite ?lookup_insert_ne by done; auto.
Qed.

(** C8 (as the code has it): the list [getProcessEnv] returns has an
    [LD_LIBRARY_PATH] entry, and its value holds the library directory
    [/.singularity.d/libs] at least once.  The value is computed from the
    one given in the input (the runtime value if there is one, else the
    last one the image declares, else the empty string): the directory is
    appended when the given value does not hold it, and the given value is
    kept as it is when it does.  So the directory occurs exactly once when
    the given value holds it at most once. *)
Theorem getProcessEnv_LD_LIBRARY_PATH (w : World) (imageSpec : imgspecv1.Image)
    (runtimeEnv : gmap string string) :
  range_ok w ->
  let imageEnv := imgspecv1.Env (imgspecv1.Config imageSpec) in
  let given :=
    default
      (ldLibraryPath (foldl scanImageEnv (mkEnvVars "" "" "" "" imageEnv)
                        imageEnv))
      (runtimeEnv !! "LD_LIBRARY_PATH") in
  exists v,
    lookupEnvList "LD_LIBRARY_PATH" (getProcessEnv w imageSpec runtimeEnv)
      = Some v /\
    1 <= occurrences v apptainerLibs /\
    (Contains given apptainerLibs = false ->
     v = TrimPrefix (given +:+ ":" +:+ apptainerLibs) ":") /\
    (Contains given apptainerLibs = true -> v = given) /\
    (occurrences given apptainerLibs <= 1 -> occurrences v apptainerLibs = 1).
Proof.
  intros Hok imageEnv given.
  exists (withApptainerLibs given).
  destruct (range_ok_order w runtimeEnv Hok) as [Hnd Hmap].
  assert (Hv : lookupEnvList "LD_LIBRARY_PATH"
                 (getProcessEnv w imageSpec runtimeEnv)
               = Some (withApptainerLibs given)).
  { unfold getProcessEnv, getProcessEnv_in. cbv zeta.
    rewrite lookupEnvList_SetProcessEnv. do 2 f_equal.
    destruct (foldl_applyRuntimeVar (RangeOrder w runtimeEnv)
                (foldl scanImageEnv (mkEnvVars "" "" "" "" imageEnv) imageEnv)
                Hnd) as (_ & _ & _ & Hl).
    cbv zeta in Hl. rewrite Hmap in Hl. exact Hl. }
  split; [exact Hv |].
  pose proof (occurrences_withApptainerLibs given) as Hocc.
  split; [lia |].
  unfold withApptainerLibs in *.
  split; [| split].
  - intros ->. reflexivity.
  - intros ->. reflexivity.
  - intros Hle. lia.
Qed.

Lemma getProcessEnv_LD_LIBRARY_PATH_witness :
  exists v,
    lookupEnvList "LD_LIBRARY_PATH"
      (getProcessEnv sampleWorld sampleImage {[ "LD_LIBRARY_PATH" := "/opt/lib" ]})
      = Some v /\
    occurrences v apptainerLibs = 1.
Proof.
  destruct (getProcessEnv_LD_LIBRARY_PATH sampleWorld sampleImage
              {[ "LD_LIBRARY_PATH" := "/opt/lib" ]}
              (fun m => reflexivity (map_to_list m)))
    as (v & Hv & _ & _ & _ & Hone).
  exists v. split; [exact Hv |].
  apply Hone. vm_compute. lia.
Defined.

(** C8, as stated, fails: a runtime value of [LD_LIBRARY_PATH] that holds
    the library directory twice is passed on as it is. *)
Lemma getProcessEnv_LD_LIBRARY_PATH_counterexample :
  let out :=
    getProcessEnv sampleWorld sampleImage
      {[ "LD_LIBRARY_PATH" := "/.singularity.d/libs:/.singularity.d/libs" ]} in
  lookupEnvList "LD_LIBRARY_PATH" out
    = Some "/.singularity.d/libs:/.singularity.d/libs" /\
  occurrences "/.singularity.d/libs:/.singularity.d/libs" apptainerLibs = 2 /\
  length (filter (fun e => HasPrefix e "LD_LIBRARY_PATH=" = true) out) = 1.
Proof. vm_compute. repeat split. Qed.

Lemma lookup_mergeMap (a b : gmap string string) (k : string) :
  mergeMap a b !! k =
    match b !! k with
    | Some v => Some v
    | None => a !! k
    end.
Proof.
  unfold mergeMap. rewrite lookup_union.
  destruct (b !! k), (a !! k); reflexivity.
Qed.

Lemma foldl_scanImageEnv_paths (imageEnv : list string) (st : envVars) :
  appendPath (foldl scanImageEnv st imageEnv) = appendPath st /\
  prependPath (foldl scanImageEnv st imageEnv) = prependPath st.
Proof.
  revert st. induction imageEnv as [| e imageEnv IH]; intros st; [done |].
  cbn [foldl]. destruct (IH (scanImageEnv st e)) as [-> ->].
  unfold scanImageEnv.
  destruct (SplitN2 e "=") as [| k [| v [| ? ?]]]; [done | done | | done].
  repeat case_decide; done.
Qed.

(** A non-empty runtime [PATH], with no [APPEND_PATH] and no
    [PREPEND_PATH], is the [PATH] of the result. *)
Lemma getProcessEnv_PATH (w : World) (imageSpec : imgspecv1.Image)
    (runtimeEnv : gmap string string) (c : string) :
  range_ok w ->
  runtimeEnv !! "PATH" = Some c -> c <> "" ->
  runtimeEnv !! "APPEND_PATH" = None ->
  runtimeEnv !! "PREPEND_PATH" = None ->
  lookupEnvList "PATH" (getProcessEnv w imageSpec runtimeEnv) = Some c.
Proof.
  intros Hok Hpath Hne Happ Hpre.
  destruct (range_ok_order w runtimeEnv Hok) as [Hnd Hmap].
  unfold getProcessEnv, getProcessEnv_in. cbv zeta.
  rewrite lookupEnvList_SetProcessEnv_other by exact PATH_not_LD_LIBRARY_PATH.
  set (imageEnv := imgspecv1.Env (imgspecv1.Config imageSpec)).
  set (st0 := foldl scanImageEnv (mkEnvVars "" "" "" "" imageEnv) imageEnv).
  destruct (foldl_applyRuntimeVar (RangeOrder w runtimeEnv) st0 Hnd)
    as (Hp & Ha & Hpp & _).
  cbv zeta in Hp, Ha, Hpp. rewrite Hmap in Hp, Ha, Hpp.
  rewrite Hpath in Hp. rewrite Happ in Ha. rewrite Hpre in Hpp.
  simpl in Hp, Ha, Hpp.
  destruct (foldl_scanImageEnv_paths imageEnv
              (mkEnvVars "" "" "" "" imageEnv)) as [Ha0 Hpp0].
  fold st0 in Ha0, Hpp0. simpl in Ha0, Hpp0.
  rewrite Hp, Ha, Hpp, Ha0, Hpp0.
  destruct (decide ("" ≠ "")) as [Habs | _]; [contradiction |].
  destruct (decide (c ≠ "")); [| contradiction].
  apply lookupEnvList_SetProcessEnv.
Qed.

End EnvironmentFacts.

(** ** The cases of the package tests *)

Section PackageTests.

(** [TestApptainerEnvMap] *)
Example apptainerEnvMap_None : apptainerEnvMap (hostWithEnviron []) = ∅.
Proof. reflexivity. Qed.

Example apptainerEnvMap_NonPrefixed :
  apptainerEnvMap (hostWithEnviron ["FOO=bar"]) = ∅.
Proof. reflexivity. Qed.

Example apptainerEnvMap_PrefixedSingle :
  apptainerEnvMap (hostWithEnviron ["APPTAINERENV_FOO=bar"])
    = {[ "FOO" := "bar" ]}.
Proof. vm_compute. reflexivity. Qed.

Example apptainerEnvMap_PrefixedMultiple :
  apptainerEnvMap
    (hostWithEnviron ["APPTAINERENV_FOO=bar"; "APPTAINERENV_ABC=123"])
    = <["FOO" := "bar"]> {[ "ABC" := "123" ]}.
Proof. vm_compute. reflexivity. Qed.

(** [Test_addNamespaces], run without privilege. *)
Example addNamespaces_none :
  namespaces_after sampleWorld (flags false false false false false)
    = defaultNamespaces.
Proof. reflexivity. Qed.

Example addNamespaces_pid :
  namespaces_after sampleWorld (flags false false true false false)
    = defaultNamespaces.
Proof. reflexivity. Qed.

Example addNamespaces_ipc :
  namespaces_after sampleWorld (flags false false false true false)
    = defaultNamespaces.
Proof. reflexivity. Qed.

Example addNamespaces_user :
  namespaces_after sampleWorld (flags true false false false false)
    = defaultNamespaces.
Proof. reflexivity. Qed.

Example addNamespaces_net :
  namespaces_after sampleWorld (flags false false false false true)
    = defaultNamespaces ++ [namespace specs.NetworkNamespace].
Proof. reflexivity. Qed.

Example addNamespaces_uts :
  namespaces_after sampleWorld (flags false true false false false)
    = defaultNamespaces ++ [namespace specs.UTSNamespace].
Proof. reflexivity. Qed.

(** The string functions on the shapes the launcher meets. *)
Example SplitN2_pair : SplitN2 "PATH=/a=b" "=" = ["PATH"; "/a=b"].
Proof. reflexivity. Qed.

Example SplitN2_single : SplitN2 "PATH" "=" = ["PATH"].
Proof. reflexivity. Qed.

Example withApptainerLibs_empty :
  withApptainerLibs "" = "/.singularity.d/libs".
Proof. reflexivity. Qed.

Example withApptainerLibs_absent :
  withApptainerLibs "/opt/lib" = "/opt/lib:/.singularity.d/libs".
Proof. reflexivity. Qed.

Example withApptainerLibs_present :
  withApptainerLibs "/.singularity.d/libs:/opt/lib"
    = "/.singularity.d/libs:/opt/lib".
Proof. reflexivity. Qed.

End PackageTests.

(** * Further properties of the code *)

(** ** Reversed ID mappings, read as a whole *)

Section IDMappingTables.
Local Open Scope Z_scope.

Ltac zbool :=
  repeat match goal with
         | |- context [?a <=? ?b] => destruct (Z.leb_spec a b)
         | |- context [?a <? ?b] => destruct (Z.ltb_spec a b)
         | |- context [?a =? ?b] => destruct (Z.eqb_spec a b)
         | H : context [?a <=? ?b] |- _ => destruct (Z.leb_spec a b)
         | H : context [?a <? ?b] |- _ => destruct (Z.ltb_spec a b)
         | H : context [?a =? ?b] |- _ => destruct (Z.eqb_spec a b)
         end.

(** The table of the branch [target >= range size]. *)
Lemma reverseMapByRange_outside t o rU rO :
  specs.Size rU <= t ->
  fst (reverseMapByRange t o rU rO) =
    [ {| specs.ContainerID := 0; specs.HostID := 1;
         specs.Size := specs.Size rU |};
      {| specs.ContainerID := t; specs.HostID := 0; specs.Size := 1 |} ].
Proof.
  intros Hge. rewrite reverseMapByRange_fst.
  destruct (Z.ltb_spec t (specs.Size rU)); [lia | reflexivity].
Qed.

Lemma resolve_outside t r c :
  0 <= r -> r <= t ->
  resolve
    [ {| specs.ContainerID := 0; specs.HostID := 1; specs.Size := r |};
      {| specs.ContainerID := t; specs.HostID := 0; specs.Size := 1 |} ] c =
    if (0 <=? c) && (c <? r) then Some (c + 1)
    else if c =? t then Some 0
    else None.
Proof.
  intros Hr Hge. simpl. unfold covers; simpl.
  zbool; simpl; try lia; try (f_equal; lia); reflexivity.
Qed.

(** The reading of one table, in both branches. *)
Lemma resolve_reverseMap t o rU rO c :
  is_uint32 t -> is_uint32 (specs.Size rU) ->
  resolve (fst (reverseMapByRange t o rU rO)) c =
    if (0 <=? c) && (c <? t) && (c <? specs.Size rU) then Some (c + 1)
    else if c =? t then Some 0
    else if (t <? c) && (c <=? specs.Size rU) then Some c
    else None.
Proof.
  intros Ht Hr. pose proof Ht as Ht'. pose proof Hr as Hr'.
  unfold is_uint32, uint32_max in Ht', Hr'.
  destruct (Z_lt_le_dec t (specs.Size rU)) as [Hlt | Hge].
  - rewrite (reverseMapByRange_inside t o rU rO Ht Hr Hlt).
    rewrite resolve_inside by lia.
    zbool; simpl; try lia; reflexivity.
  - rewrite (reverseMapByRange_outside t o rU rO Hge).
    rewrite resolve_outside by lia.
    zbool; simpl; try lia; reflexivity.
Qed.

(** X1: for a target at or beyond the range size the table has exactly two
    entries; it maps the container IDs below the range size to the host ID
    one higher and the target to host ID 0, and no other container ID. *)
Theorem reverseMapByRange_target_outside
    (targetUID targetGID : Z) (subuidRange subgidRange : specs.LinuxIDMapping) :
  is_uint32 targetUID -> is_uint32 (specs.Size subuidRange) ->
  specs.Size subuidRange <= targetUID ->
  let uidMap :=
    fst (reverseMapByRange targetUID targetGID subuidRange subgidRange) in
  length uidMap = 2%nat /\
  (forall c, 0 <= c < specs.Size subuidRange ->
     resolve uidMap c = Some (c + 1)) /\
  resolve uidMap targetUID = Some 0 /\
  (forall c, specs.Size subuidRange <= c -> c <> targetUID ->
     resolve uidMap c = None) /\
  (forall c, c < 0 -> resolve uidMap c = None).
Proof.
  intros Ht Hr Hge uidMap. subst uidMap.
  split; [rewrite reverseMapByRange_outside by assumption; reflexivity |].
  unfold is_uint32, uint32_max in Ht, Hr.
  repeat split; intros;
    rewrite resolve_reverseMap by (unfold is_uint32, uint32_max; lia);
    zbool; simpl; try lia; reflexivity.
Qed.

Lemma reverseMapByRange_target_outside_witness :
  resolve (fst (reverseMapByRange 70000 0 (sampleRange 65536)
                  (sampleRange 65536))) 70000 = Some 0 /\
  resolve (fst (reverseMapByRange 70000 0 (sampleRange 65536)
                  (sampleRange 65536))) 65535 = Some 65536 /\
  resolve (fst (reverseMapByRange 70000 0 (sampleRange 65536)
                  (sampleRange 65536))) 65536 = None.
Proof.
  destruct (reverseMapByRange_target_outside 70000 0
              (sampleRange 65536) (sampleRange 65536)
              ltac:(unfold is_uint32, uint32_max; lia)
              ltac:(unfold is_uint32, uint32_max; simpl; lia)
              ltac:(simpl; lia)) as (_ & Hbelow & Htarget & Hother & _).
  split; [exact Htarget |].
  split; [apply (Hbelow 65535); simpl; lia |].
  apply (Hother 65536); simpl; lia.
Defined.

(** X2: the entries of a table do not overlap on the container-ID axis: a
    container ID lies in the interval of at most one entry. *)
Theorem reverseMapByRange_no_overlap
    (targetUID targetGID : Z) (subuidRange subgidRange : specs.LinuxIDMapping) :
  is_uint32 targetUID -> is_uint32 targetGID ->
  is_uint32 (specs.Size subuidRange) -> is_uint32 (specs.Size subgidRange) ->
  forall tbl,
    tbl = fst (reverseMapByRange targetUID targetGID subuidRange subgidRange)
    \/ tbl = snd (reverseMapByRange targetUID targetGID subuidRange
                    subgidRange) ->
    forall (i j : nat) e1 e2 c,
      tbl !! i = Some e1 -> tbl !! j = Some e2 ->
      covers e1 c = true -> covers e2 c = true -> i = j.
Proof.
  intros HtU HtG HrU HrG tbl Htbl.
  assert (Hone : forall t o rU rO,
            is_uint32 t -> is_uint32 (specs.Size rU) ->
            forall (i j : nat) e1 e2 c,
              fst (reverseMapByRange t o rU rO) !! i = Some e1 ->
              fst (reverseMapByRange t o rU rO) !! j = Some e2 ->
              covers e1 c = true -> covers e2 c = true -> i = j).
  { intros t o rU rO Ht Hr i j e1 e2 c.
    pose proof Ht as Ht'. pose proof Hr as Hr'.
    unfold is_uint32, uint32_max in Ht', Hr'.
    destruct (Z_lt_le_dec t (specs.Size rU)) as [Hlt | Hge].
    - rewrite (reverseMapByRange_inside t o rU rO Ht Hr Hlt).
      destruct i as [| [| [| i]]], j as [| [| [| j]]]; simpl;
        intros H1 H2; try discriminate; try reflexivity;
        injection H1 as <-; injection H2 as <-;
        unfold covers; simpl; intros C1 C2;
        apply andb_true_iff in C1 as [C1a C1b];
        apply andb_true_iff in C2 as [C2a C2b];
        apply Z.leb_le in C1a, C2a; apply Z.ltb_lt in C1b, C2b; lia.
    - rewrite (reverseMapByRange_outside t o rU rO Hge).
      destruct i as [| [| i]], j as [| [| j]]; simpl;
        intros H1 H2; try discriminate; try reflexivity;
        injection H1 as <-; injection H2 as <-;
        unfold covers; simpl; intros C1 C2;
        apply andb_true_iff in C1 as [C1a C1b];
        apply andb_true_iff in C2 as [C2a C2b];
        apply Z.leb_le in C1a, C2a; apply Z.ltb_lt in C1b, C2b; lia. }
  destruct Htbl as [-> | ->].
  - apply Hone; assumption.
  - rewrite reverseMapByRange_snd. apply Hone; assumption.
Qed.

Lemma reverseMapByRange_no_overlap_witness : 1%nat = 1%nat.
Proof.
  exact (reverseMapByRange_no_overlap 1000 100
           (sampleRange 65536) (sampleRange 65536)
           ltac:(unfold is_uint32, uint32_max; lia)
           ltac:(unfold is_uint32, uint32_max; lia)
           ltac:(unfold is_uint32, uint32_max; simpl; lia)
           ltac:(unfold is_uint32, uint32_max; simpl; lia)
           _ (or_introl eq_refl) 1%nat 1%nat
           {| specs.ContainerID := 1000; specs.HostID := 0; specs.Size := 1 |}
           {| specs.ContainerID := 1000; specs.HostID := 0; specs.Size := 1 |}
           1000 eq_refl eq_refl eq_refl eq_refl).
Defined.

(** X3: a table is a one-to-one correspondence between the container IDs
    it covers and the host IDs [0] to [range size]: every host ID it gives
    lies in that interval, no two container IDs get the same host ID, and
    every host ID of the interval is the image of a container ID. *)
Theorem reverseMapByRange_bijection
    (targetUID targetGID : Z) (subuidRange subgidRange : specs.LinuxIDMapping) :
  is_uint32 targetUID -> is_uint32 (specs.Size subuidRange) ->
  let uidMap :=
    fst (reverseMapByRange targetUID targetGID subuidRange subgidRange) in
  (forall c h, resolve uidMap c = Some h ->
     0 <= h <= specs.Size subuidRange) /\
  (forall c1 c2 h, resolve uidMap c1 = Some h -> resolve uidMap c2 = Some h ->
     c1 = c2) /\
  (forall h, 0 <= h <= specs.Size subuidRange ->
     exists c, resolve uidMap c = Some h).
Proof.
  intros Ht Hr uidMap. subst uidMap.
  pose proof Ht as Ht'. pose proof Hr as Hr'.
  unfold is_uint32, uint32_max in Ht', Hr'.
  split; [| split].
  - intros c h. rewrite (resolve_reverseMap _ _ _ _ c Ht Hr).
    zbool; simpl; intros Hres; simplify_eq; lia.
  - intros c1 c2 h.
    rewrite (resolve_reverseMap _ _ _ _ c1 Ht Hr),
            (resolve_reverseMap _ _ _ _ c2 Ht Hr).
    zbool; simpl; intros Hres1 Hres2; simplify_eq; lia.
  - intros h Hh.
    destruct (Z.eq_dec h 0) as [-> | Hne].
    + exists targetUID. rewrite (resolve_reverseMap _ _ _ _ _ Ht Hr).
      zbool; simpl; try lia; reflexivity.
    + destruct (Z_le_gt_dec h targetUID) as [Hle | Hgt].
      * exists (h - 1). rewrite (resolve_reverseMap _ _ _ _ _ Ht Hr).
        zbool; simpl; try lia; f_equal; lia.
      * exists h. rewrite (resolve_reverseMap _ _ _ _ _ Ht Hr).
        zbool; simpl; try lia; reflexivity.
Qed.

Lemma reverseMapByRange_bijection_witness :
  exists c,
    resolve (fst (reverseMapByRange 1000 100 (sampleRange 65536)
                    (sampleRange 65536))) c = Some 65536.
Proof.
  destruct (reverseMapByRange_bijection 1000 100
              (sampleRange 65536) (sampleRange 65536)
              ltac:(unfold is_uint32, uint32_max; lia)
              ltac:(unfold is_uint32, uint32_max; simpl; lia))
    as (_ & _ & Hsurj).
  apply (Hsurj 65536). simpl. lia.
Defined.

End IDMappingTables.

(** ** Capability sets, whatever the options *)

Section CapabilitySetFacts.

(** The sets of a successful [getProcessCapabilities], from the base
    capabilities and the recognised add and drop names. *)
Lemma getProcessCapabilities_ok_inv (w : World) (l : Launcher) (targetUID : Z)
    (caps : specs.LinuxCapabilities) :
  getProcessCapabilities w l targetUID = Ok caps ->
  exists base,
    getBaseCapabilities w l = Ok base /\
    let add := fst (Split w (launcher.AddCaps (cfg l))) in
    let dropped := fst (Split w (launcher.DropCaps (cfg l))) in
    let bounding := Without (RemoveDuplicated (base ++ add)) dropped in
    let explicit := Without add dropped in
    specs.Bounding caps = bounding /\
    ((targetUID = 0%Z /\ specs.Permitted caps = bounding /\
      specs.Effective caps = bounding /\ specs.Inheritable caps = [] /\
      specs.Ambient caps = []) \/
     (targetUID <> 0%Z /\ specs.Permitted caps = explicit /\
      specs.Effective caps = explicit /\ specs.Inheritable caps = explicit /\
      specs.Ambient caps = explicit)).
Proof.
  unfold getProcessCapabilities. intros H.
  apply bind_ok_inv in H as (base & Hbase & H).
  exists base. split; [exact Hbase |].
  destruct (Split w (launcher.AddCaps (cfg l))) as [add ?].
  destruct (Split w (launcher.DropCaps (cfg l))) as [dropped ?].
  simpl. destruct (Z.eqb_spec targetUID 0) as [-> | Hne];
    injection H as <-; simpl; (split; [reflexivity |]).
  - left. repeat split.
  - right. repeat split. exact Hne.
Qed.

Lemma getProcessCapabilities_of_base (w : World) (l : Launcher)
    (targetUID : Z) (base : list string) :
  getBaseCapabilities w l = Ok base ->
  exists caps, getProcessCapabilities w l targetUID = Ok caps.
Proof.
  intros Hbase. unfold getProcessCapabilities. rewrite Hbase. simpl.
  destruct (Split w (launcher.AddCaps (cfg l))),
           (Split w (launcher.DropCaps (cfg l))).
  destruct (targetUID =? 0)%Z; eauto.
Qed.

(** X4: whenever the base capabilities are available, the capability sets
    are returned, and a recognised name of the drop list is in none of the
    five, whatever the base capabilities, the add list and the target
    UID. *)
Theorem getProcessCapabilities_dropped (w : World) (l : Launcher)
    (targetUID : Z) (base : list string) (c : string) :
  getBaseCapabilities w l = Ok base ->
  c ∈ fst (Split w (launcher.DropCaps (cfg l))) ->
  exists caps,
    getProcessCapabilities w l targetUID = Ok caps /\
    (c ∉ specs.Permitted caps) /\ (c ∉ specs.Effective caps) /\
    (c ∉ specs.Bounding caps) /\ (c ∉ specs.Inheritable caps) /\
    (c ∉ specs.Ambient caps).
Proof.
  intros Hbase Hc.
  destruct (getProcessCapabilities_of_base w l targetUID base Hbase)
    as [caps H].
  exists caps. split; [exact H |].
  apply getProcessCapabilities_ok_inv in H as (base' & _ & Hb & Hsets).
  cbv zeta in Hb, Hsets.
  assert (Hnb : c ∉ Without (RemoveDuplicated
                    (base' ++ fst (Split w (launcher.AddCaps (cfg l)))))
                  (fst (Split w (launcher.DropCaps (cfg l)))))
    by (rewrite elem_of_Without; tauto).
  assert (Hne : c ∉ Without (fst (Split w (launcher.AddCaps (cfg l))))
                  (fst (Split w (launcher.DropCaps (cfg l)))))
    by (rewrite elem_of_Without; tauto).
  assert (Hnil : c ∉ @nil string) by (intros Hin; inversion Hin).
  rewrite Hb.
  destruct Hsets as [(_ & -> & -> & -> & ->) | (_ & -> & -> & -> & ->)];
    repeat split; assumption.
Qed.

Lemma getProcessCapabilities_dropped_witness :
  (exists caps,
     getProcessCapabilities sampleWorld sampleLauncher 0 = Ok caps /\
     ("CAP_CHOWN" ∉ specs.Bounding caps)) /\
  (exists caps,
     getProcessCapabilities sampleWorld sampleLauncher 1000 = Ok caps /\
     ("CAP_CHOWN" ∉ specs.Permitted caps)).
Proof.
  split.
  - destruct (getProcessCapabilities_dropped sampleWorld sampleLauncher 0
                (DefaultCaps sampleWorld) "CAP_CHOWN"
                eq_refl ltac:(vm_compute; apply list_elem_of_here))
      as (caps & Hcaps & _ & _ & Hb & _).
    exists caps. split; assumption.
  - destruct (getProcessCapabilities_dropped sampleWorld sampleLauncher 1000
                (DefaultCaps sampleWorld) "CAP_CHOWN"
                eq_refl ltac:(vm_compute; apply list_elem_of_here))
      as (caps & Hcaps & Hp & _).
    exists caps. split; assumption.
Defined.

(** X5: whenever the base capabilities are available, the sets returned
    satisfy the kernel's inclusions: effective is included in permitted,
    permitted in bounding, and ambient in both permitted and
    inheritable. *)
Theorem getProcessCapabilities_inclusions (w : World) (l : Launcher)
    (targetUID : Z) (base : list string) :
  getBaseCapabilities w l = Ok base ->
  exists caps,
    getProcessCapabilities w l targetUID = Ok caps /\
    specs.Effective caps ⊆ specs.Permitted caps /\
    specs.Permitted caps ⊆ specs.Bounding caps /\
    specs.Ambient caps ⊆ specs.Permitted caps /\
    specs.Ambient caps ⊆ specs.Inheritable caps.
Proof.
  intros Hbase.
  destruct (getProcessCapabilities_of_base w l targetUID base Hbase)
    as [caps H].
  exists caps. split; [exact H |].
  apply getProcessCapabilities_ok_inv in H as (base' & _ & Hb & Hsets).
  cbv zeta in Hb, Hsets. rewrite Hb.
  destruct Hsets as [(_ & -> & -> & -> & ->) | (_ & -> & -> & -> & ->)].
  - repeat split; try done; intros c Hc; inversion Hc.
  - repeat split; try done.
    intros c. rewrite !elem_of_Without, elem_of_RemoveDuplicated, elem_of_app.
    tauto.
Qed.

Lemma getProcessCapabilities_inclusions_witness :
  (exists caps,
     getProcessCapabilities sampleWorld sampleLauncher 0 = Ok caps /\
     specs.Permitted caps ⊆ specs.Bounding caps) /\
  (exists caps,
     getProcessCapabilities sampleWorld sampleLauncher 1000 = Ok caps /\
     specs.Permitted caps ⊆ specs.Bounding caps).
Proof.
  split.
  - destruct (getProcessCapabilities_inclusions sampleWorld sampleLauncher 0
                (DefaultCaps sampleWorld) eq_refl)
      as (caps & Hcaps & _ & Hpb & _).
    exists caps. split; assumption.
  - destruct (getProcessCapabilities_inclusions sampleWorld sampleLauncher
                1000 (DefaultCaps sampleWorld) eq_refl)
      as (caps & Hcaps & _ & Hpb & _).
    exists caps. split; assumption.
Defined.

(** X6: with [NoPrivs] the host's capabilities are not consulted
    ([getProcessCapabilities] cannot fail, even with [KeepPrivs]), and every
    capability of every set is a recognised name of the add list. *)
Theorem getProcessCapabilities_NoPrivs (w : World) (l : Launcher)
    (targetUID : Z) :
  launcher.NoPrivs (cfg l) = true ->
  exists caps,
    getProcessCapabilities w l targetUID = Ok caps /\
    forall c,
      c ∈ specs.Permitted caps \/ c ∈ specs.Effective caps \/
      c ∈ specs.Bounding caps \/ c ∈ specs.Inheritable caps \/
      c ∈ specs.Ambient caps ->
      c ∈ fst (Split w (launcher.AddCaps (cfg l))).
Proof.
  intros Hno.
  assert (Hbase : getBaseCapabilities w l = Ok [])
    by (unfold getBaseCapabilities; rewrite Hno; reflexivity).
  destruct (getProcessCapabilities w l targetUID) as [caps | e] eqn:E.
  - exists caps. split; [reflexivity |].
    apply getProcessCapabilities_ok_inv in E as (base & Hbase' & Hb & Hsets).
    rewrite Hbase in Hbase'. injection Hbase' as <-.
    cbv zeta in Hb, Hsets. rewrite Hb. intros c.
    destruct Hsets as [(_ & -> & -> & -> & ->) | (_ & -> & -> & -> & ->)];
      rewrite ?elem_of_Without, ?elem_of_RemoveDuplicated, ?elem_of_nil;
      simpl; tauto.
  - exfalso. unfold getProcessCapabilities in E. rewrite Hbase in E.
    simpl in E.
    destruct (Split w (launcher.AddCaps (cfg l))),
             (Split w (launcher.DropCaps (cfg l))).
    destruct (targetUID =? 0)%Z; discriminate.
Qed.

(** X7: [getProcessCapabilities] fails exactly when the host's effective
    capabilities are asked for ([KeepPrivs] without [NoPrivs]) and cannot be
    read; the error is the one of the reading. *)
Theorem getProcessCapabilities_failure (w : World) (l : Launcher)
    (targetUID : Z) (e : error) :
  getProcessCapabilities w l targetUID = Err e <->
  launcher.NoPrivs (cfg l) = false /\ launcher.KeepPrivs (cfg l) = true /\
  ProcessEffective w = Err e.
Proof.
  unfold getProcessCapabilities, getBaseCapabilities.
  destruct (launcher.NoPrivs (cfg l)), (launcher.KeepPrivs (cfg l)),
           (ProcessEffective w) as [eff | e'],
           (Split w (launcher.AddCaps (cfg l))),
           (Split w (launcher.DropCaps (cfg l))),
           (targetUID =? 0)%Z; simpl;
    split; try discriminate; try (intros (? & ? & ?); discriminate);
    try (intros [= ->]; auto); try (intros (_ & _ & [= ->]); reflexivity).
Qed.

Lemma getProcessCapabilities_NoPrivs_witness :
  exists caps,
    getProcessCapabilities sampleWorld noPrivsLauncher 0 = Ok caps /\
    specs.Bounding caps = ["CAP_NET_RAW"].
Proof.
  destruct (getProcessCapabilities_NoPrivs sampleWorld noPrivsLauncher 0
              eq_refl) as (caps & Hcaps & _).
  exists caps. split; [exact Hcaps |].
  vm_compute in Hcaps. injection Hcaps as <-. reflexivity.
Defined.

End CapabilitySetFacts.

(** ** Keys and values of [KEY=VALUE] entries *)

Section EntryFacts.

Lemma HasPrefix_TrimPrefix (s p : string) :
  HasPrefix s p = true -> s = p +:+ TrimPrefix s p.
Proof.
  unfold TrimPrefix. intros H. rewrite H. revert s H.
  induction p as [| c p IH]; intros s H; [reflexivity |].
  destruct s as [| d s]; [discriminate |]. simpl in H.
  destruct (decide (d = c)) as [-> | ?]; [| discriminate].
  cbn [String.length drop_string].
  change (String c s = String c (p +:+ drop_string (String.length p) s)).
  f_equal. apply IH, H.
Qed.

Lemma ContainsRune_app (a b : string) (c : Ascii.ascii) :
  ContainsRune (a +:+ b) c = ContainsRune a c || ContainsRune b c.
Proof.
  induction a as [| x a IH]; [reflexivity |].
  change (String x a +:+ b) with (String x (a +:+ b)).
  cbn [ContainsRune]. rewrite IH. apply orb_assoc.
Qed.

Lemma SplitN2_app (a b : string) (sep : Ascii.ascii) :
  ContainsRune a sep = false -> SplitN2 (a +:+ String sep b) sep = [a; b].
Proof.
  induction a as [| x a IH]; intros Ha.
  - simpl. destruct (decide (sep = sep)); [reflexivity | contradiction].
  - simpl in Ha. apply orb_false_iff in Ha as [Hx Ha].
    apply bool_decide_eq_false in Hx.
    change (String x a +:+ String sep b) with (String x (a +:+ String sep b)).
    cbn [SplitN2]. destruct (decide (x = sep)); [contradiction |].
    rewrite (IH Ha). reflexivity.
Qed.

Lemma SplitN2_pair_inv (s a b : string) (sep : Ascii.ascii) :
  SplitN2 s sep = [a; b] ->
  s = a +:+ String sep b /\ ContainsRune a sep = false.
Proof.
  revert a. induction s as [| x s IH]; intros a H; [discriminate |].
  cbn [SplitN2] in H. destruct (decide (x = sep)) as [-> | Hne].
  - injection H as <- <-. split; reflexivity.
  - destruct (SplitN2 s sep) as [| k [| v [| ? ?]]] eqn:E; try discriminate.
    injection H as <- <-. destruct (IH k eq_refl) as [-> Hk].
    split; [reflexivity |]. simpl. rewrite Hk.
    rewrite bool_decide_eq_false_2 by assumption. reflexivity.
Qed.

(** Two different keys free of [=] cannot both be the key of an entry. *)
Lemma HasPrefix_keys_disjoint (k k' e : string) :
  ContainsRune k "=" = false -> ContainsRune k' "=" = false -> k <> k' ->
  HasPrefix e (k' +:+ "=") = true -> HasPrefix e (k +:+ "=") = false.
Proof.
  revert k' e. induction k as [| a k IH]; intros k' e Hk Hk' Hne H'.
  - destruct k' as [| a' k']; [contradiction |].
    destruct e as [| c e]; [reflexivity |].
    simpl in Hk'. apply orb_false_iff in Hk' as [Ha' _].
    apply bool_decide_eq_false in Ha'.
    simpl in H'. destruct (decide (c = a')) as [-> | ?]; [| discriminate].
    simpl. destruct (decide (a' = "="%char)); [contradiction | reflexivity].
  - simpl in Hk. apply orb_false_iff in Hk as [Ha Hk].
    apply bool_decide_eq_false in Ha.
    destruct e as [| c e]; [reflexivity |].
    change (String a k +:+ "=") with (String a (k +:+ "=")).
    cbn [HasPrefix]. destruct (decide (c = a)) as [-> | ?]; [| reflexivity].
    destruct k' as [| a' k'].
    + simpl in H'. destruct (decide (a = "="%char)); [contradiction |].
      discriminate.
    + simpl in Hk'. apply orb_false_iff in Hk' as [_ Hk'].
      change (String a' k' +:+ "=") with (String a' (k' +:+ "=")) in H'.
      cbn [HasPrefix] in H'.
      destruct (decide (a = a')) as [-> | ?]; [| discriminate].
      apply (IH k' e Hk Hk'); [congruence | exact H'].
Qed.

Lemma lookupEnvList_SetProcessEnv_ne (k k' v : string) (env : list string) :
  ContainsRune k "=" = false -> ContainsRune k' "=" = false -> k <> k' ->
  lookupEnvList k (SetProcessEnv k' v env) = lookupEnvList k env.
Proof.
  intros Hk Hk' Hne. apply lookupEnvList_SetProcessEnv_other.
  intros e. apply HasPrefix_keys_disjoint; assumption.
Qed.

End EntryFacts.

(** ** The layers of the runtime environment *)

Section LayerFacts.

(** The environment entry [APPTAINERENV_key=value]. *)
Local Abbreviation passthrough key value :=
  (ApptainerEnvPrefix +:+ key +:+ "=" +:+ value).

Lemma apptainerEnvStep_entry (m : gmap string string) (k v : string) :
  ContainsRune k "=" = false ->
  apptainerEnvStep m (passthrough k v) = <[k := v]> m.
Proof.
  intros Hk. unfold apptainerEnvStep.
  rewrite HasPrefix_app. cbn [negb].
  rewrite <- (string_app_assoc ApptainerEnvPrefix k ("=" +:+ v)).
  change ("=" +:+ v) with (String "="%char v).
  rewrite SplitN2_app
    by (rewrite ContainsRune_app, Hk; reflexivity).
  rewrite TrimPrefix_app. reflexivity.
Qed.

Lemma apptainerEnvStep_inv (m : gmap string string) (e : string) :
  apptainerEnvStep m e = m \/
  exists k v,
    e = passthrough k v /\ ContainsRune k "=" = false /\
    apptainerEnvStep m e = <[k := v]> m.
Proof.
  unfold apptainerEnvStep.
  destruct (HasPrefix e ApptainerEnvPrefix) eqn:Hpre; [| left; reflexivity].
  cbn [negb].
  destruct (SplitN2 e "=") as [| p0 [| v [| ? ?]]] eqn:E;
    try (left; reflexivity).
  apply SplitN2_pair_inv in E as [-> Hp0].
  apply (HasPrefix_before_rune ApptainerEnvPrefix p0 v "="%char eq_refl)
    in Hpre.
  right. exists (TrimPrefix p0 ApptainerEnvPrefix), v.
  pose proof (HasPrefix_TrimPrefix p0 ApptainerEnvPrefix Hpre) as Hsplit.
  split; [| split; [| reflexivity]].
  - rewrite <- (string_app_assoc ApptainerEnvPrefix _ ("=" +:+ v)).
    rewrite <- Hsplit. reflexivity.
  - rewrite Hsplit, ContainsRune_app in Hp0.
    apply orb_false_iff in Hp0 as [_ Hk]. exact Hk.
Qed.

Lemma foldl_apptainerEnvStep_sound (l : list string) (m : gmap string string)
    (k v : string) :
  foldl apptainerEnvStep m l !! k = Some v ->
  m !! k = Some v \/ (passthrough k v ∈ l /\ ContainsRune k "=" = false).
Proof.
  revert m. induction l as [| e l IH]; intros m H; [left; exact H |].
  cbn [foldl] in H. apply IH in H as [H | [Hin Hk]].
  - destruct (apptainerEnvStep_inv m e)
      as [Hstep | (k0 & v0 & -> & Hk0 & Hstep)];
      rewrite Hstep in H; [left; exact H |]. destruct (decide (k0 = k)) as [-> | Hne].
    + rewrite lookup_insert_eq in H. injection H as ->.
      right. split; [apply list_elem_of_here | exact Hk0].
    + rewrite lookup_insert_ne in H by exact Hne. left; exact H.
  - right. split; [apply list_elem_of_further, Hin | exact Hk].
Qed.

Lemma foldl_apptainerEnvStep_other (l : list string) (m : gmap string string)
    (k : string) :
  (forall v, passthrough k v ∉ l) ->
  foldl apptainerEnvStep m l !! k = m !! k.
Proof.
  revert m. induction l as [| e l IH]; intros m Hl; [reflexivity |].
  cbn [foldl]. rewrite IH
    by (intros v Hin; apply (Hl v), list_elem_of_further, Hin).
  destruct (apptainerEnvStep_inv m e) as [-> | (k0 & v0 & -> & Hk0 & ->)];
    [reflexivity |].
  apply lookup_insert_ne. intros ->. apply (Hl v0), list_elem_of_here.
Qed.

(** X8: every entry of the map of [apptainerEnvMap] comes from a variable
    of the host environment named with the prefix [APPTAINERENV_]: the key
    is the name without the prefix and holds no [=], the value is what
    follows the first [=].  Variables without the prefix contribute
    nothing. *)
Theorem apptainerEnvMap_sound (w : World) (k v : string) :
  apptainerEnvMap w !! k = Some v ->
  (ApptainerEnvPrefix +:+ k +:+ "=" +:+ v) ∈ Environ w /\
  ContainsRune k "=" = false.
Proof.
  unfold apptainerEnvMap. intros H.
  apply foldl_apptainerEnvStep_sound in H as [H | H]; [| exact H].
  rewrite lookup_empty in H. discriminate.
Qed.

Lemma apptainerEnvMap_sound_witness :
  "APPTAINERENV_FOO=bar" ∈ Environ sampleWorld.
Proof.
  exact (proj1 (apptainerEnvMap_sound sampleWorld "FOO" "bar"
                  ltac:(vm_compute; reflexivity))).
Defined.

(** X9: when the host environment sets [APPTAINERENV_key] several times,
    the last setting is the one in the map: a variable [APPTAINERENV_key=v]
    followed by no other setting of the same name gives [key -> v]. *)
Theorem apptainerEnvMap_last_wins (w : World) (before after : list string)
    (k v : string) :
  Environ w = before ++ (ApptainerEnvPrefix +:+ k +:+ "=" +:+ v) :: after ->
  ContainsRune k "=" = false ->
  (forall v', (ApptainerEnvPrefix +:+ k +:+ "=" +:+ v') ∉ after) ->
  apptainerEnvMap w !! k = Some v.
Proof.
  intros Henv Hk Hafter. unfold apptainerEnvMap.
  rewrite Henv, foldl_app. cbn [foldl].
  rewrite foldl_apptainerEnvStep_other by exact Hafter.
  rewrite apptainerEnvStep_entry by exact Hk.
  apply lookup_insert_eq.
Qed.

Lemma apptainerEnvMap_last_wins_witness :
  apptainerEnvMap
    (hostWithEnviron ["APPTAINERENV_FOO=old"; "APPTAINERENV_FOO=new"; "A=b"])
    !! "FOO" = Some "new".
Proof.
  apply (apptainerEnvMap_last_wins
           (hostWithEnviron
              ["APPTAINERENV_FOO=old"; "APPTAINERENV_FOO=new"; "A=b"])
           ["APPTAINERENV_FOO=old"] ["A=b"] "FOO" "new" eq_refl eq_refl).
  intros v' Hin. apply list_elem_of_singleton in Hin. discriminate.
Defined.

Lemma envFileStep_inv (w : World) (m : gmap string string) (e : string) :
  envFileStep w m e = m \/
  exists k v,
    e = k +:+ "=" +:+ v /\ ContainsRune k "=" = false /\
    ReadOnlyVars w k = false /\ envFileStep w m e = <[k := v]> m.
Proof.
  unfold envFileStep.
  destruct (SplitN2 e "=") as [| k [| v [| ? ?]]] eqn:E;
    try (left; reflexivity).
  apply SplitN2_pair_inv in E as [-> Hk].
  destruct (ReadOnlyVars w k) eqn:Hro; [left; reflexivity |].
  right. exists k, v. repeat split; assumption.
Qed.

Lemma foldl_envFileStep_sound (w : World) (l : list string)
    (m : gmap string string) (k v : string) :
  foldl (envFileStep w) m l !! k = Some v ->
  m !! k = Some v \/
  ((k +:+ "=" +:+ v) ∈ l /\ ReadOnlyVars w k = false /\
   ContainsRune k "=" = false).
Proof.
  revert m. induction l as [| e l IH]; intros m H; [left; exact H |].
  cbn [foldl] in H. apply IH in H as [H | (Hin & Hro & Hk)].
  - destruct (envFileStep_inv w m e)
      as [Hstep | (k0 & v0 & -> & Hk0 & Hro0 & Hstep)];
      rewrite Hstep in H; [left; exact H |]. destruct (decide (k0 = k)) as [-> | Hne].
    + rewrite lookup_insert_eq in H. injection H as ->.
      right. split; [apply list_elem_of_here | split; assumption].
    + rewrite lookup_insert_ne in H by exact Hne. left; exact H.
  - right. split; [apply list_elem_of_further, Hin | split; assumption].
Qed.

(** X10: when the file is read and its evaluation gives an environment,
    [envFileMap] returns a map, and the map holds only assignments of that
    environment, none of them for a read-only variable of the evaluator: an
    entry [key -> value] comes from a line [key=value] whose key is not in
    [ReadOnlyVars]. *)
Theorem envFileMap_content (w : World) (f content : string)
    (shellEnv : list string) :
  ReadFile w f = Ok content -> EvaluateEnv w content = Ok shellEnv ->
  exists m,
    envFileMap w f = Ok m /\
    forall k v, m !! k = Some v ->
      (k +:+ "=" +:+ v) ∈ shellEnv /\ ReadOnlyVars w k = false /\
      ContainsRune k "=" = false.
Proof.
  intros Hread Heval. unfold envFileMap. rewrite Hread, Heval.
  eexists. split; [reflexivity |].
  intros k v Hkv. apply foldl_envFileStep_sound in Hkv as [Hkv | Hkv];
    [| exact Hkv].
  rewrite lookup_empty in Hkv. discriminate.
Qed.

Lemma envFileMap_content_witness :
  exists m,
    envFileMap sampleWorld "/etc/env" = Ok m /\
    m !! "FOO" = Some "file" /\ m !! "PWD" = None /\
    ReadOnlyVars sampleWorld "FOO" = false.
Proof.
  destruct (envFileMap_content sampleWorld "/etc/env" "export FOO=file"
              ["FOO=file"; "PWD=/"] eq_refl eq_refl) as (m & Hm & Hall).
  exists m. split; [exact Hm |].
  vm_compute in Hm. injection Hm as <-.
  split; [vm_compute; reflexivity |].
  split; [vm_compute; reflexivity |].
  exact (proj1 (proj2 (Hall "FOO" "file" ltac:(vm_compute; reflexivity)))).
Defined.

End LayerFacts.

(** ** The environment list, key by key *)

Section EnvironmentListFacts.

Lemma gEnv_scanImageEnv (imageEnv : list string) (st : envVars) :
  gEnv (foldl scanImageEnv st imageEnv) = gEnv st.
Proof.
  revert st. induction imageEnv as [| e imageEnv IH]; intros st; [done |].
  cbn [foldl]. rewrite IH. unfold scanImageEnv.
  destruct (SplitN2 e "=") as [| k [| v [| ? ?]]]; [done | done | | done].
  repeat case_decide; done.
Qed.

Lemma gEnv_applyRuntimeVar (st : envVars) (k v : string) :
  gEnv (applyRuntimeVar st (k, v)) =
    if decide (k ∈ interceptedKeys) then gEnv st
    else SetProcessEnv k v (gEnv st).
Proof.
  unfold applyRuntimeVar, interceptedKeys.
  destruct (decide (k = "PATH")) as [-> | H1]; [reflexivity |].
  destruct (decide (k = "APPEND_PATH")) as [-> | H2]; [reflexivity |].
  destruct (decide (k = "PREPEND_PATH")) as [-> | H3]; [reflexivity |].
  destruct (decide (k = "LD_LIBRARY_PATH")) as [-> | H4]; [reflexivity |].
  simpl. case_decide as Hin; [| reflexivity].
  rewrite !elem_of_cons, elem_of_nil in Hin. tauto.
Qed.

(** The value of a key in the generator's list after the loop over the
    runtime environment. *)
Lemma foldl_applyRuntimeVar_gEnv (order : list (string * string))
    (st : envVars) (k : string) :
  NoDup order.*1 ->
  (forall k' v', (k', v') ∈ order -> ContainsRune k' "=" = false) ->
  ContainsRune k "=" = false ->
  lookupEnvList k (gEnv (foldl applyRuntimeVar st order)) =
    match (if decide (k ∈ interceptedKeys) then None
           else (list_to_map order : gmap string string) !! k) with
    | Some v => Some v
    | None => lookupEnvList k (gEnv st)
    end.
Proof.
  intros Hnd Hplain Hk. revert st Hnd Hplain.
  induction order as [| [k1 v1] order IH]; intros st Hnd Hplain.
  - simpl. rewrite lookup_empty. case_decide; reflexivity.
  - rewrite fmap_cons in Hnd. simpl in Hnd.
    apply NoDup_cons in Hnd as [Hk1 Hnd].
    cbn [foldl]. rewrite list_to_map_cons.
    rewrite IH
      by (try assumption; intros k' v' Hin;
          apply (Hplain k' v'), list_elem_of_further, Hin).
    assert (Hk1p : ContainsRune k1 "=" = false)
      by (apply (Hplain k1 v1), list_elem_of_here).
    assert (Hnone : (list_to_map order : gmap string string) !! k1 = None)
      by (apply not_elem_of_list_to_map_1; exact Hk1).
    rewrite gEnv_applyRuntimeVar.
    destruct (decide (k ∈ interceptedKeys)) as [Hint | Hint].
    + destruct (decide (k1 ∈ interceptedKeys)); [reflexivity |].
      apply lookupEnvList_SetProcessEnv_ne; try assumption.
      intros ->. contradiction.
    + destruct (decide (k1 = k)) as [-> | Hne].
      * rewrite Hnone, lookup_insert_eq.
        destruct (decide (k ∈ interceptedKeys)); [contradiction |].
        apply lookupEnvList_SetProcessEnv.
      * rewrite lookup_insert_ne by exact Hne.
        destruct ((list_to_map order : gmap string string) !! k);
          [reflexivity |].
        destruct (decide (k1 ∈ interceptedKeys)); [reflexivity |].
        apply lookupEnvList_SetProcessEnv_ne; try assumption.
        intros ->. apply Hne. reflexivity.
Qed.

(** A key other than [PATH] and [LD_LIBRARY_PATH] in the result of
    [getProcessEnv]. *)
Lemma getProcessEnv_lookup (w : World) (imageSpec : imgspecv1.Image)
    (runtimeEnv : gmap string string) (k : string) :
  range_ok w -> plain_keys runtimeEnv ->
  ContainsRune k "=" = false -> k <> "PATH" -> k <> "LD_LIBRARY_PATH" ->
  lookupEnvList k (getProcessEnv w imageSpec runtimeEnv) =
    match (if decide (k ∈ interceptedKeys) then None
           else runtimeEnv !! k) with
    | Some v => Some v
    | None => lookupEnvList k (imgspecv1.Env (imgspecv1.Config imageSpec))
    end.
Proof.
  intros Hok Hplain Hk Hpath Hld.
  destruct (range_ok_order w runtimeEnv Hok) as [Hnd Hmap].
  unfold getProcessEnv, getProcessEnv_in. cbv zeta.
  rewrite lookupEnvList_SetProcessEnv_ne by (done || assumption).
  set (imageEnv := imgspecv1.Env (imgspecv1.Config imageSpec)).
  set (st0 := foldl scanImageEnv (mkEnvVars "" "" "" "" imageEnv) imageEnv).
  assert (Hloop :
      lookupEnvList k
        (gEnv (foldl applyRuntimeVar st0 (RangeOrder w runtimeEnv))) =
      match (if decide (k ∈ interceptedKeys) then None
             else runtimeEnv !! k) with
      | Some v => Some v
      | None => lookupEnvList k imageEnv
      end).
  { rewrite foldl_applyRuntimeVar_gEnv; try assumption.
    - rewrite Hmap. unfold st0. rewrite gEnv_scanImageEnv. reflexivity.
    - intros k' v' Hin. apply (Hplain k' v').
      rewrite <- Hmap. apply elem_of_list_to_map_1; assumption. }
  match goal with
  | |- context [decide (?p ≠ "")] => destruct (decide (p ≠ ""))
  end; [| exact Hloop].
  rewrite lookupEnvList_SetProcessEnv_ne by (done || assumption).
  exact Hloop.
Qed.

(** X11: a runtime variable whose key is not one of the four intercepted
    ones is in the environment list with its runtime value, whatever the
    image declares for it; a key the runtime environment does not set keeps
    the value the image declares.  (Keys hold no [=].) *)
Theorem getProcessEnv_runtime_over_image (w : World)
    (imageSpec : imgspecv1.Image) (runtimeEnv : gmap string string)
    (k : string) :
  range_ok w -> plain_keys runtimeEnv ->
  ContainsRune k "=" = false -> k ∉ interceptedKeys ->
  lookupEnvList k (getProcessEnv w imageSpec runtimeEnv) =
    match runtimeEnv !! k with
    | Some v => Some v
    | None => lookupEnvList k (imgspecv1.Env (imgspecv1.Config imageSpec))
    end.
Proof.
  intros Hok Hplain Hk Hint.
  rewrite getProcessEnv_lookup; try assumption.
  - destruct (decide (k ∈ interceptedKeys)); [contradiction | reflexivity].
  - intros ->. apply Hint. unfold interceptedKeys.
    rewrite !elem_of_cons. auto.
  - intros ->. apply Hint. unfold interceptedKeys.
    rewrite !elem_of_cons. auto 6.
Qed.

(** X12: [APPEND_PATH] and [PREPEND_PATH] of the runtime environment are
    consumed: they are not written to the environment list, which keeps for
    these keys what the image declares, if anything. *)
Theorem getProcessEnv_path_modifiers_consumed (w : World)
    (imageSpec : imgspecv1.Image) (runtimeEnv : gmap string string)
    (k : string) :
  range_ok w -> plain_keys runtimeEnv ->
  k = "APPEND_PATH" \/ k = "PREPEND_PATH" ->
  lookupEnvList k (getProcessEnv w imageSpec runtimeEnv) =
    lookupEnvList k (imgspecv1.Env (imgspecv1.Config imageSpec)).
Proof.
  intros Hok Hplain Hk.
  rewrite getProcessEnv_lookup; try assumption.
  - destruct (decide (k ∈ interceptedKeys)) as [_ | Hint]; [reflexivity |].
    exfalso. apply Hint. unfold interceptedKeys.
    rewrite !elem_of_cons. destruct Hk as [-> | ->]; auto.
  - destruct Hk as [-> | ->]; reflexivity.
  - destruct Hk as [-> | ->]; discriminate.
  - destruct Hk as [-> | ->]; discriminate.
Qed.

Lemma range_ok_sampleWorld : range_ok sampleWorld.
Proof. intros m. unfold range_order. reflexivity. Qed.

Lemma plain_keys_singleton (k v : string) :
  ContainsRune k "=" = false ->
  plain_keys ({[ k := v ]} : gmap string string).
Proof.
  intros Hk k' v' H. apply lookup_singleton_Some in H as [<- _]. exact Hk.
Qed.

Lemma getProcessEnv_runtime_over_image_witness :
  lookupEnvList "FOO"
    (getProcessEnv sampleWorld sampleImage {[ "FOO" := "bar" ]}) = Some "bar".
Proof.
  rewrite (getProcessEnv_runtime_over_image sampleWorld sampleImage
             {[ "FOO" := "bar" ]} "FOO" range_ok_sampleWorld
             (plain_keys_singleton "FOO" "bar" eq_refl) eq_refl).
  - vm_compute. reflexivity.
  - unfold interceptedKeys. rewrite !elem_of_cons, elem_of_nil.
    intros [H | [H | [H | [H | H]]]]; try discriminate H. exact H.
Defined.

Lemma getProcessEnv_path_modifiers_consumed_witness :
  lookupEnvList "APPEND_PATH"
    (getProcessEnv sampleWorld sampleImage {[ "APPEND_PATH" := "/x" ]}) = None.
Proof.
  rewrite (getProcessEnv_path_modifiers_consumed sampleWorld sampleImage
             {[ "APPEND_PATH" := "/x" ]} "APPEND_PATH" range_ok_sampleWorld
             (plain_keys_singleton "APPEND_PATH" "/x" eq_refl)
             (or_introl eq_refl)).
  reflexivity.
Defined.

(** The [PATH] of the environment list is the runtime [PATH] (the
    image's when the runtime environment sets none), followed by [:] and
    the runtime [APPEND_PATH] when that is not empty, and preceded by the
    runtime [PREPEND_PATH] and [:] when that is not empty, provided the
    whole is not empty; the order in which the map is visited plays no
    part. *)
Lemma getProcessEnv_PATH_composed (w : World) (imageSpec : imgspecv1.Image)
    (runtimeEnv : gmap string string) :
  range_ok w ->
  composedPath (imgspecv1.Env (imgspecv1.Config imageSpec)) runtimeEnv <> "" ->
  lookupEnvList "PATH" (getProcessEnv w imageSpec runtimeEnv) =
    Some (composedPath (imgspecv1.Env (imgspecv1.Config imageSpec))
            runtimeEnv).
Proof.
  intros Hok Hne.
  destruct (range_ok_order w runtimeEnv Hok) as [Hnd Hmap].
  unfold getProcessEnv, getProcessEnv_in. cbv zeta.
  rewrite lookupEnvList_SetProcessEnv_other by exact PATH_not_LD_LIBRARY_PATH.
  set (imageEnv := imgspecv1.Env (imgspecv1.Config imageSpec)) in *.
  set (st0 := foldl scanImageEnv (mkEnvVars "" "" "" "" imageEnv) imageEnv).
  destruct (foldl_applyRuntimeVar (RangeOrder w runtimeEnv) st0 Hnd)
    as (Hp & Ha & Hpp & _).
  cbv zeta in Hp, Ha, Hpp. rewrite Hmap in Hp, Ha, Hpp.
  destruct (foldl_scanImageEnv_paths imageEnv
              (mkEnvVars "" "" "" "" imageEnv)) as [Ha0 Hpp0].
  fold st0 in Ha0, Hpp0. simpl in Ha0, Hpp0.
  rewrite Ha0 in Ha. rewrite Hpp0 in Hpp.
  rewrite Hp, Ha, Hpp.
  unfold composedPath, imagePath in Hne |- *. fold st0 in Hne |- *.
  cbv zeta in Hne |- *.
  match goal with
  | |- context [decide (?p ≠ "")] =>
      lazymatch p with
      | context [decide] => destruct (decide (p ≠ "")) as [_ | Habs]
      end
  end; [apply lookupEnvList_SetProcessEnv |].
  exfalso. apply Habs. exact Hne.
Qed.

Lemma getProcessEnv_PATH_composed_witness :
  lookupEnvList "PATH"
    (getProcessEnv sampleWorld sampleImage
       (<["APPEND_PATH" := "/x"]> {[ "PREPEND_PATH" := "/y" ]}))
    = Some "/y:/a:/x".
Proof.
  rewrite (getProcessEnv_PATH_composed sampleWorld sampleImage
             (<["APPEND_PATH" := "/x"]> {[ "PREPEND_PATH" := "/y" ]})
             range_ok_sampleWorld).
  - vm_compute. reflexivity.
  - vm_compute. discriminate.
Defined.

(** When the computed [PATH] is empty, no [PATH] is written and the
    list keeps the entry the image declares, if any; so an empty runtime
    [PATH] does not clear the [PATH] of the image. *)
Lemma getProcessEnv_empty_PATH (w : World) (imageSpec : imgspecv1.Image)
    (runtimeEnv : gmap string string) :
  range_ok w -> plain_keys runtimeEnv ->
  composedPath (imgspecv1.Env (imgspecv1.Config imageSpec)) runtimeEnv = "" ->
  lookupEnvList "PATH" (getProcessEnv w imageSpec runtimeEnv) =
    lookupEnvList "PATH" (imgspecv1.Env (imgspecv1.Config imageSpec)).
Proof.
  intros Hok Hplain Hempty.
  destruct (range_ok_order w runtimeEnv Hok) as [Hnd Hmap].
  unfold getProcessEnv, getProcessEnv_in. cbv zeta.
  rewrite lookupEnvList_SetProcessEnv_other by exact PATH_not_LD_LIBRARY_PATH.
  set (imageEnv := imgspecv1.Env (imgspecv1.Config imageSpec)) in *.
  set (st0 := foldl scanImageEnv (mkEnvVars "" "" "" "" imageEnv) imageEnv).
  assert (Hloop :
      lookupEnvList "PATH"
        (gEnv (foldl applyRuntimeVar st0 (RangeOrder w runtimeEnv))) =
      lookupEnvList "PATH" imageEnv).
  { rewrite foldl_applyRuntimeVar_gEnv; try assumption; try reflexivity.
    - unfold st0. rewrite gEnv_scanImageEnv. reflexivity.
    - intros k' v' Hin. apply (Hplain k' v').
      rewrite <- Hmap. apply elem_of_list_to_map_1; assumption. }
  destruct (foldl_applyRuntimeVar (RangeOrder w runtimeEnv) st0 Hnd)
    as (Hp & Ha & Hpp & _).
  cbv zeta in Hp, Ha, Hpp. rewrite Hmap in Hp, Ha, Hpp.
  destruct (foldl_scanImageEnv_paths imageEnv
              (mkEnvVars "" "" "" "" imageEnv)) as [Ha0 Hpp0].
  fold st0 in Ha0, Hpp0. simpl in Ha0, Hpp0.
  rewrite Ha0 in Ha. rewrite Hpp0 in Hpp.
  rewrite Hp, Ha, Hpp.
  unfold composedPath, imagePath in Hempty. fold st0 in Hempty.
  cbv zeta in Hempty. rewrite Hempty.
  destruct (decide ("" ≠ "")) as [Habs | _]; [contradiction |].
  exact Hloop.
Qed.

Lemma getProcessEnv_empty_PATH_witness :
  lookupEnvList "PATH"
    (getProcessEnv sampleWorld sampleImage {[ "PATH" := "" ]}) = Some "/a".
Proof.
  rewrite (getProcessEnv_empty_PATH sampleWorld sampleImage
             {[ "PATH" := "" ]} range_ok_sampleWorld
             (plain_keys_singleton "PATH" "" eq_refl)).
  - reflexivity.
  - vm_compute. reflexivity.
Defined.

Lemma plain_keys_mergeMap (a b : gmap string string) :
  plain_keys a -> plain_keys b -> plain_keys (mergeMap a b).
Proof.
  intros Ha Hb k v. rewrite lookup_mergeMap.
  destruct (b !! k) as [vb |] eqn:E.
  - intros _. exact (Hb k vb E).
  - apply Ha.
Qed.

Lemma plain_keys_insert (m : gmap string string) (k v : string) :
  ContainsRune k "=" = false -> plain_keys m -> plain_keys (<[k := v]> m).
Proof.
  intros Hk Hm k' v'. destruct (decide (k = k')) as [<- | Hne].
  - intros _. exact Hk.
  - rewrite lookup_insert_ne by exact Hne. apply Hm.
Qed.

Lemma plain_keys_empty : plain_keys ∅.
Proof. intros k v H. rewrite lookup_empty in H. discriminate. Qed.

Lemma plain_keys_apptainerEnvMap (w : World) : plain_keys (apptainerEnvMap w).
Proof.
  intros k v H. unfold apptainerEnvMap in H.
  apply foldl_apptainerEnvStep_sound in H as [H | [_ H]]; [| exact H].
  rewrite lookup_empty in H. discriminate.
Qed.

Lemma plain_keys_envFileMap (w : World) (f : string) (m : gmap string string) :
  envFileMap w f = Ok m -> plain_keys m.
Proof.
  unfold envFileMap. intros H k v Hkv.
  destruct (ReadFile w f) as [content | ?]; [| discriminate].
  destruct (EvaluateEnv w content) as [shellEnv | ?]; [| discriminate].
  injection H as <-.
  apply foldl_envFileStep_sound in Hkv as [Hkv | (_ & _ & Hk)]; [| exact Hk].
  rewrite lookup_empty in Hkv. discriminate.
Qed.

(** The keys of the runtime environment [getProcess] assembles hold no [=]
    when those of the explicit [Env] option hold none. *)
Lemma plain_keys_getProcess_rtEnv (w : World) (l : Launcher)
    (imgSpec : imgspecv1.Image) (bundle : string) (ep : launcher.ExecParams)
    (rtEnv : gmap string string) :
  plain_keys (launcher.Env (cfg l)) ->
  getProcess_rtEnv w l imgSpec bundle ep = Ok rtEnv ->
  plain_keys rtEnv /\
  (imgspecv1.User (imgspecv1.Config imgSpec) = "" ->
   rtEnv !! "HOME" = Some (homeDest l)).
Proof.
  intros Hcfg Hrt. unfold getProcess_rtEnv in Hrt.
  set (base := match LookupEnv w "TERM" with
               | Some hostTerm =>
                   <["TERM" := hostTerm]> (defaultEnv (launcher.Image ep) bundle)
               | None => defaultEnv (launcher.Image ep) bundle
               end) in Hrt.
  assert (Hbase : plain_keys base).
  { unfold base, defaultEnv.
    destruct (LookupEnv w "TERM");
      repeat apply plain_keys_insert; try reflexivity; apply plain_keys_empty. }
  assert (Hlayers : exists layers,
            plain_keys layers /\
            rtEnv = if decide (imgspecv1.User (imgspecv1.Config imgSpec) = "")
                    then <["HOME" := homeDest l]> layers else layers).
  { destruct (decide (launcher.EnvFile (cfg l) ≠ "")).
    - destruct (envFileMap w (launcher.EnvFile (cfg l))) as [e |] eqn:E;
        simpl in Hrt; [| discriminate].
      injection Hrt as <-. eexists. split; [| reflexivity].
      repeat apply plain_keys_mergeMap; try assumption.
      + apply plain_keys_apptainerEnvMap.
      + exact (plain_keys_envFileMap _ _ _ E).
    - simpl in Hrt. injection Hrt as <-. eexists. split; [| reflexivity].
      repeat apply plain_keys_mergeMap; try assumption.
      apply plain_keys_apptainerEnvMap. }
  destruct Hlayers as (layers & Hplain & ->).
  destruct (decide (imgspecv1.User (imgspecv1.Config imgSpec) = "")).
  - split; [apply plain_keys_insert; [reflexivity | exact Hplain] |].
    intros _. apply lookup_insert_eq.
  - split; [exact Hplain | intros; contradiction].
Qed.

(** In the process [getProcess] assembles, a variable of the runtime
    environment whose key is not intercepted has its runtime value, and a
    key the runtime environment does not set has the value the image
    declares; in particular [HOME] is the launcher's home directory when
    the image declares no user.  (The keys of the [Env] option hold no
    [=].) *)
Lemma getProcess_env_values (w : World) (l : Launcher)
    (imgSpec : imgspecv1.Image) (bundle : string) (ep : launcher.ExecParams)
    (u : specs.User) (p : specs.Process) :
  range_ok w -> plain_keys (launcher.Env (cfg l)) ->
  getProcess w l imgSpec bundle ep u = Ok p ->
  exists rtEnv,
    getProcess_rtEnv w l imgSpec bundle ep = Ok rtEnv /\
    (forall k, ContainsRune k "=" = false -> k ∉ interceptedKeys ->
       lookupEnvList k (specs.Env p) =
         match rtEnv !! k with
         | Some v => Some v
         | None => lookupEnvList k (imgspecv1.Env (imgspecv1.Config imgSpec))
         end) /\
    (imgspecv1.User (imgspecv1.Config imgSpec) = "" ->
     lookupEnvList "HOME" (specs.Env p) = Some (homeDest l)).
Proof.
  intros Hok Hcfg Hp.
  apply getProcess_ok_inv in Hp as (rtEnv & ? & ? & ? & Hrt & _ & _ & _ & ->).
  cbn [specs.Env].
  destruct (plain_keys_getProcess_rtEnv w l imgSpec bundle ep rtEnv Hcfg Hrt)
    as [Hplain Hhome].
  assert (Hval : forall k, ContainsRune k "=" = false -> k ∉ interceptedKeys ->
            lookupEnvList k (getProcessEnv w imgSpec rtEnv) =
              match rtEnv !! k with
              | Some v => Some v
              | None =>
                  lookupEnvList k (imgspecv1.Env (imgspecv1.Config imgSpec))
              end).
  { intros k Hk Hint. rewrite getProcessEnv_lookup; try assumption.
    - destruct (decide (k ∈ interceptedKeys)); [contradiction | reflexivity].
    - intros ->. apply Hint. unfold interceptedKeys.
      rewrite !elem_of_cons. auto.
    - intros ->. apply Hint. unfold interceptedKeys.
      rewrite !elem_of_cons. auto 6. }
  exists rtEnv. split; [exact Hrt |]. split; [exact Hval |].
  intros Huser. rewrite Hval, (Hhome Huser); [reflexivity | reflexivity |].
  unfold interceptedKeys. rewrite !elem_of_cons, elem_of_nil.
  intros [H | [H | [H | [H | H]]]]; try discriminate H. exact H.
Qed.

Lemma getProcess_env_values_witness :
  lookupEnvList "HOME" (specs.Env sampleProcess) = Some "/home/alice".
Proof.
  destruct (getProcess_env_values sampleWorld sampleLauncher sampleImage
              "/bundle" (sampleExec "") (sampleUser 1000) sampleProcess
              range_ok_sampleWorld (plain_keys_singleton "PATH" "/c" eq_refl)
              ltac:(vm_compute; reflexivity)) as (rtEnv & _ & _ & Hhome).
  exact (Hhome eq_refl).
Defined.

End EnvironmentListFacts.

(** ** The assembled process, field by field *)

Section ProcessFieldFacts.

Lemma getProcess_rtEnv_ok (w : World) (l : Launcher)
    (imgSpec : imgspecv1.Image) (bundle : string) (ep : launcher.ExecParams) :
  (exists rtEnv, getProcess_rtEnv w l imgSpec bundle ep = Ok rtEnv) <->
  launcher.EnvFile (cfg l) = "" \/
  exists m, envFileMap w (launcher.EnvFile (cfg l)) = Ok m.
Proof.
  unfold getProcess_rtEnv.
  destruct (decide (launcher.EnvFile (cfg l) ≠ "")) as [Hf | Hf].
  - destruct (envFileMap w (launcher.EnvFile (cfg l))) as [m | e]; simpl.
    + split; [intros _; right; eauto | intros _; eauto].
    + split; [intros [? ?]; discriminate |].
      intros [? | [? ?]]; [contradiction | discriminate].
  - simpl. split; [intros _; left | intros _; eauto].
    destruct (decide (launcher.EnvFile (cfg l) = "")); [assumption |].
    exfalso. apply Hf. assumption.
Qed.

Lemma getProcess_args_ok (w : World) (l : Launcher)
    (imgSpec : imgspecv1.Image) (ep : launcher.ExecParams) :
  (exists args, getProcess_args w l imgSpec ep = Ok args) <->
  nativeSIF l = false \/ exists args, ActionScriptArgs w ep = Ok args.
Proof.
  unfold getProcess_args. destruct (nativeSIF l).
  - destruct (ActionScriptArgs w ep) as [args | e].
    + split; [intros _; right; eauto | intros _; eauto].
    + split; [intros [? ?]; discriminate |].
      intros [? | [? ?]]; discriminate.
  - split; [intros _; left; reflexivity |].
    intros _. case_decide; eauto.
Qed.

(** X13: [getProcess] succeeds exactly when the environment file, if one
    is given, can be read and evaluated, the capabilities can be computed,
    and, for a native SIF image, the action script arguments can be built.
    A failure of the environment file is returned as it is, before anything
    else is looked at. *)
Theorem getProcess_success (w : World) (l : Launcher)
    (imgSpec : imgspecv1.Image) (bundle : string) (ep : launcher.ExecParams)
    (u : specs.User) :
  ((exists p, getProcess w l imgSpec bundle ep u = Ok p) <->
   (launcher.EnvFile (cfg l) = "" \/
    exists m, envFileMap w (launcher.EnvFile (cfg l)) = Ok m) /\
   (exists caps, getProcessCapabilities w l (specs.UID u) = Ok caps) /\
   (nativeSIF l = false \/ exists args, ActionScriptArgs w ep = Ok args)) /\
  (forall e, launcher.EnvFile (cfg l) <> "" ->
     envFileMap w (launcher.EnvFile (cfg l)) = Err e ->
     getProcess w l imgSpec bundle ep u = Err e).
Proof.
  split; [split |].
  - intros [p Hp].
    apply getProcess_ok_inv in Hp
      as (rtEnv & cwd & caps & args & Hrt & _ & Hcaps & Hargs & _).
    split; [apply (getProcess_rtEnv_ok w l imgSpec bundle ep); eauto |].
    split; [eauto |].
    apply (getProcess_args_ok w l imgSpec ep); eauto.
  - intros (Hfile & [caps Hcaps] & Hnative).
    apply (getProcess_rtEnv_ok w l imgSpec bundle ep) in Hfile as [rtEnv Hrt].
    apply (getProcess_args_ok w l imgSpec ep) in Hnative as [args Hargs].
    unfold getProcess. rewrite Hrt, Hcaps, Hargs.
    unfold getProcessCwd. case_decide; simpl; eauto.
  - intros e Hf He. unfold getProcess, getProcess_rtEnv.
    destruct (decide (launcher.EnvFile (cfg l) ≠ "")); [| contradiction].
    rewrite He. reflexivity.
Qed.

(** X16: with explicit arguments, [getProcessArgs] returns the process
    name, or the image entrypoint when there is none, followed by the
    explicit arguments; the default command of the image is not used.  The
    result is empty only when no process name and no arguments are given
    and the image declares neither entrypoint nor default command. *)
Theorem getProcessArgs_explicit_args (imageSpec : imgspecv1.Image)
    (ep : launcher.ExecParams) :
  (launcher.Args ep <> [] ->
   getProcessArgs imageSpec ep =
     (if decide (launcher.Process ep = "")
      then imgspecv1.Entrypoint (imgspecv1.Config imageSpec)
      else [launcher.Process ep]) ++ launcher.Args ep) /\
  (getProcessArgs imageSpec ep = [] <->
   launcher.Process ep = "" /\ launcher.Args ep = [] /\
   imgspecv1.Entrypoint (imgspecv1.Config imageSpec) = [] /\
   imgspecv1.Cmd (imgspecv1.Config imageSpec) = []).
Proof.
  unfold getProcessArgs.
  destruct (launcher.Args ep) as [| a args] eqn:Ea; simpl.
  - split; [intros H; contradiction |].
    destruct (decide (launcher.Process ep ≠ "")) as [Hp | Hp].
    + destruct (decide (launcher.Process ep = "")); [contradiction |].
      split; [discriminate | intros (? & _); contradiction].
    + destruct (decide (launcher.Process ep = "")) as [Hp' | Hp'];
        [| exfalso; apply Hp; exact Hp'].
      split.
      * intros H. apply app_eq_nil in H as [-> ->]. auto.
      * intros (_ & _ & -> & ->). reflexivity.
  - destruct (decide (0 < S (length args))); [| lia].
    split.
    + intros _. destruct (decide (launcher.Process ep ≠ "")) as [Hp | Hp];
        destruct (decide (launcher.Process ep = "")) as [Hp' | Hp'];
        try contradiction; try reflexivity.
    + split; [| intros (_ & ? & _); discriminate].
      intros H. apply app_eq_nil in H as [_ H]. discriminate.
Qed.

Lemma getProcess_success_witness :
  exists p,
    getProcess sampleWorld sampleLauncher sampleImage "/bundle" shellExec
      (sampleUser 0) = Ok p.
Proof.
  apply (proj1 (getProcess_success sampleWorld sampleLauncher sampleImage
                  "/bundle" shellExec (sampleUser 0))).
  split; [left; reflexivity |].
  split; [eexists; vm_compute; reflexivity | left; reflexivity].
Defined.

Lemma getProcessArgs_explicit_args_witness :
  getProcessArgs sampleImage shellExec = ["/bin/bar"; "-x"].
Proof.
  exact (proj1 (getProcessArgs_explicit_args sampleImage shellExec)
           ltac:(discriminate)).
Defined.

End ProcessFieldFacts.

(** ** Namespaces, on any spec *)

Section NamespaceSpecFacts.

Ltac solve_sublist :=
  solve [repeat first
           [apply sublist_nil | apply sublist_skip | apply sublist_cons]].

(** The namespaces [addNamespaces] appends when no error stops it. *)
Lemma addNamespaces_run (w : World) (spec : specs.Spec)
    (ns : launcher.Namespaces) :
  let net :=
    if launcher.Net ns then [namespace specs.NetworkNamespace] else [] in
  let uts :=
    if launcher.UTS ns then [namespace specs.UTSNamespace] else [] in
  let st := fst (addNamespaces w spec ns) in
  let err := snd (addNamespaces w spec ns) in
  specs.Version (nsSpec st) = specs.Version spec /\
  specs.UIDMappings (specs.Linux' (nsSpec st))
    = specs.UIDMappings (specs.Linux' spec) /\
  specs.GIDMappings (specs.Linux' (nsSpec st))
    = specs.GIDMappings (specs.Linux' spec) /\
  ((launcher.User ns = false /\ err = None /\
    specs.Namespaces (specs.Linux' (nsSpec st))
      = specs.Namespaces (specs.Linux' spec) ++ net ++ uts) \/
   (launcher.User ns = true /\ exists uid, Getuid w = Ok uid /\ err = None /\
    specs.Namespaces (specs.Linux' (nsSpec st))
      = specs.Namespaces (specs.Linux' spec) ++ net ++
        (if (uid =? 0)%Z then [namespace specs.UserNamespace] else []) ++ uts) \/
   (launcher.User ns = true /\ exists e, Getuid w = Err e /\ err = Some e /\
    specs.Namespaces (specs.Linux' (nsSpec st))
      = specs.Namespaces (specs.Linux' spec) ++ net)).
Proof.
  unfold addNamespaces.
  destruct ns as [user uts pid ipc net]. cbn [launcher.User launcher.UTS
    launcher.PID launcher.IPC launcher.Net].
  destruct user.
  - destruct (Getuid w) as [uid | e].
    + destruct (uid =? 0)%Z eqn:Huid, uts, pid, ipc, net; simpl;
        repeat (split; [reflexivity |]);
        right; left; (split; [reflexivity |]); exists uid;
        rewrite Huid, ?app_nil_r, <- ?app_assoc; auto.
    + destruct pid, ipc, net; simpl;
        repeat (split; [reflexivity |]);
        right; right; (split; [reflexivity |]); exists e;
        rewrite ?app_nil_r; auto.
  - destruct uts, pid, ipc, net; simpl;
      repeat (split; [reflexivity |]);
      left; rewrite ?app_nil_r, <- ?app_assoc; auto.
Qed.

(** X17: whatever the namespaces of the spec given, [addNamespaces] keeps
    them, in their order, and only appends: at most one Network, one User
    and one UTS namespace, in this order; the version and the ID mappings
    of the spec are not touched.  It does not look at what the spec holds:
    a namespace asked for is appended even when the spec has one of its
    kind. *)
Theorem addNamespaces_appends (w : World) (spec : specs.Spec)
    (ns : launcher.Namespaces) (st : nsState) (err : option error) :
  addNamespaces w spec ns = (st, err) ->
  specs.Version (nsSpec st) = specs.Version spec /\
  specs.UIDMappings (specs.Linux' (nsSpec st))
    = specs.UIDMappings (specs.Linux' spec) /\
  specs.GIDMappings (specs.Linux' (nsSpec st))
    = specs.GIDMappings (specs.Linux' spec) /\
  exists added,
    specs.Namespaces (specs.Linux' (nsSpec st))
      = specs.Namespaces (specs.Linux' spec) ++ added /\
    added `sublist_of`
      [ namespace specs.NetworkNamespace; namespace specs.UserNamespace;
        namespace specs.UTSNamespace ] /\
    (launcher.Net ns = true -> namespace specs.NetworkNamespace ∈ added) /\
    (err = None -> launcher.UTS ns = true ->
     namespace specs.UTSNamespace ∈ added).
Proof.
  intros Hrun.
  pose proof (addNamespaces_run w spec ns) as H. cbv zeta in H.
  rewrite Hrun in H. cbn [fst snd] in H.
  destruct H as (Hv & Hu & Hg & Hns).
  repeat (split; [assumption |]).
  destruct Hns as [(_ & Herr & ->) | [(_ & uid & _ & Herr & ->)
                                      | (_ & e & _ & Herr & ->)]].
  - eexists. split; [reflexivity |].
    destruct (launcher.Net ns), (launcher.UTS ns); simpl;
      (split; [solve_sublist |]); split; intros; try discriminate;
      try congruence; rewrite ?elem_of_cons; auto 6.
  - eexists. split; [reflexivity |].
    destruct (launcher.Net ns), (launcher.UTS ns), (uid =? 0)%Z; simpl;
      (split; [solve_sublist |]); split; intros; try discriminate;
      try congruence; rewrite ?elem_of_cons; auto 6.
  - eexists. split; [reflexivity |].
    destruct (launcher.Net ns); simpl;
      (split; [solve_sublist |]); split; intros; try discriminate;
      try congruence; rewrite ?elem_of_cons; auto 6.
Qed.

Lemma addNamespaces_appends_witness :
  exists added,
    namespaces_after rootWorld allNamespaces = defaultNamespaces ++ added /\
    namespace specs.NetworkNamespace ∈ added.
Proof.
  destruct (addNamespaces_appends rootWorld (minimalSpec rootWorld)
              allNamespaces _ _ eq_refl)
    as (_ & _ & _ & added & Hns & _ & Hnet & _).
  exists added. split; [exact Hns | exact (Hnet eq_refl)].
Defined.

(** X18: the PID and IPC flags change nothing but the notices: two
    requests that agree on the Network, User and UTS flags give the same
    spec and the same error. *)
Theorem addNamespaces_pid_ipc_redundant (w : World) (spec : specs.Spec)
    (ns ns' : launcher.Namespaces) :
  launcher.Net ns = launcher.Net ns' ->
  launcher.User ns = launcher.User ns' ->
  launcher.UTS ns = launcher.UTS ns' ->
  nsSpec (fst (addNamespaces w spec ns))
    = nsSpec (fst (addNamespaces w spec ns')) /\
  snd (addNamespaces w spec ns) = snd (addNamespaces w spec ns').
Proof.
  destruct ns as [user uts pid ipc net], ns' as [user' uts' pid' ipc' net'].
  cbn [launcher.User launcher.UTS launcher.Net]. intros <- <- <-.
  unfold addNamespaces.
  cbn [launcher.User launcher.UTS launcher.PID launcher.IPC launcher.Net].
  destruct user; [destruct (Getuid w) as [uid | e];
                  [destruct (uid =? 0)%Z |] |];
    destruct uts, pid, ipc, net, pid', ipc'; split; reflexivity.
Qed.

Lemma addNamespaces_pid_ipc_redundant_witness :
  nsSpec (fst (addNamespaces rootWorld (minimalSpec rootWorld) allNamespaces))
  = nsSpec (fst (addNamespaces rootWorld (minimalSpec rootWorld)
                   (flags true true false false true))).
Proof.
  exact (proj1 (addNamespaces_pid_ipc_redundant rootWorld
                  (minimalSpec rootWorld) allNamespaces
                  (flags true true false false true)
                  eq_refl eq_refl eq_refl)).
Defined.

(** X19: the host identity [addNamespaces] tests is the one named by
    [_CONTAINERS_ROOTLESS_UID] when that variable is set and not empty, not
    the effective UID: with the User flag, the User namespace is appended
    exactly when the variable parses to 0, and a value that does not parse
    makes [addNamespaces] fail with the error of the parsing, after the
    Network namespace has been appended. *)
Theorem addNamespaces_rootless_uid (w : World) (spec : specs.Spec)
    (ns : launcher.Namespaces) (u : string) :
  LookupEnv w UIDEnv = Some u -> u <> "" -> launcher.User ns = true ->
  let net :=
    if launcher.Net ns then [namespace specs.NetworkNamespace] else [] in
  let uts :=
    if launcher.UTS ns then [namespace specs.UTSNamespace] else [] in
  let st := fst (addNamespaces w spec ns) in
  (forall uid, Atoi w u = Ok uid ->
     snd (addNamespaces w spec ns) = None /\
     specs.Namespaces (specs.Linux' (nsSpec st))
       = specs.Namespaces (specs.Linux' spec) ++ net ++
         (if (uid =? 0)%Z then [namespace specs.UserNamespace] else []) ++
         uts) /\
  (forall e, Atoi w u = Err e ->
     snd (addNamespaces w spec ns) = Some e /\
     specs.Namespaces (specs.Linux' (nsSpec st))
       = specs.Namespaces (specs.Linux' spec) ++ net).
Proof.
  intros Hu Hne Huser net uts st.
  assert (Hget : Getuid w = Atoi w u).
  { unfold Getuid. rewrite Hu. simpl.
    destruct (decide (u ≠ "")); [reflexivity | contradiction]. }
  pose proof (addNamespaces_run w spec ns) as H. cbv zeta in H.
  destruct H as (_ & _ & _ & [(Hf & _) | [(_ & uid & Hg & Herr & Hns)
                                        | (_ & e & Hg & Herr & Hns)]]).
  - congruence.
  - split.
    + intros uid' Ha. rewrite Hget, Ha in Hg. injection Hg as ->.
      split; assumption.
    + intros e Ha. rewrite Hget, Ha in Hg. discriminate.
  - split.
    + intros uid Ha. rewrite Hget, Ha in Hg. discriminate.
    + intros e' Ha. rewrite Hget, Ha in Hg. injection Hg as ->.
      split; assumption.
Qed.

Lemma addNamespaces_rootless_uid_witness :
  Geteuid rootlessWorld = 0%Z /\
  namespaces_after rootlessWorld allNamespaces
    = defaultNamespaces ++
      [namespace specs.NetworkNamespace; namespace specs.UTSNamespace].
Proof.
  split; [reflexivity |].
  exact (proj2 (proj1 (addNamespaces_rootless_uid rootlessWorld
                         (minimalSpec rootlessWorld) allNamespaces "1001"
                         eq_refl ltac:(discriminate) eq_refl)
                  1001%Z eq_refl)).
Defined.

End NamespaceSpecFacts.

(** ** The launch as a whole *)

Section LaunchFacts.

Lemma getProcessCapabilities_ok (w : World) (l : Launcher) (targetUID : Z) :
  (exists caps, getProcessCapabilities w l targetUID = Ok caps) <->
  launcher.NoPrivs (cfg l) = true \/ launcher.KeepPrivs (cfg l) = false \/
  exists c, ProcessEffective w = Ok c.
Proof.
  unfold getProcessCapabilities, getBaseCapabilities.
  destruct (Split w (launcher.AddCaps (cfg l))) as [add ?],
           (Split w (launcher.DropCaps (cfg l))) as [dropped ?].
  destruct (launcher.NoPrivs (cfg l)), (launcher.KeepPrivs (cfg l)),
           (ProcessEffective w) as [c | e]; simpl;
    destruct (targetUID =? 0)%Z;
    (split; [intros [caps H]; first [discriminate | eauto 6]
            | intros H; first [eexists; reflexivity | idtac]]).
  all: destruct H as [H | [H | [c H]]]; discriminate.
Qed.

(** [getProcess] returns a process exactly on the inputs on which none of
    its steps fails. *)
Lemma getProcess_ok_iff (w : World) (l : Launcher)
    (imgSpec : imgspecv1.Image) (bundle : string) (ep : launcher.ExecParams)
    (u : specs.User) :
  (exists p, getProcess w l imgSpec bundle ep u = Ok p) <->
  launch_inputs_ok w l ep.
Proof.
  unfold launch_inputs_ok. split.
  - intros [p Hp].
    apply getProcess_ok_inv in Hp
      as (rtEnv & cwd & caps & args & Hrt & _ & Hcaps & Hargs & _).
    split; [apply (getProcess_rtEnv_ok w l imgSpec bundle ep); eauto |].
    split; [apply (getProcessCapabilities_ok w l (specs.UID u)); eauto |].
    apply (getProcess_args_ok w l imgSpec ep); eauto.
  - intros (Hfile & Hcaps & Hnative).
    apply (getProcess_rtEnv_ok w l imgSpec bundle ep) in Hfile as [rtEnv Hrt].
    apply (getProcessCapabilities_ok w l (specs.UID u)) in Hcaps
      as [caps Hcaps].
    apply (getProcess_args_ok w l imgSpec ep) in Hnative as [args Hargs].
    unfold getProcess. rewrite Hrt, Hcaps, Hargs.
    unfold getProcessCwd. case_decide; simpl; eauto.
Qed.

(** C10: on every input on which no step of [getProcess] fails, a process
    is returned and its [NoNewPrivileges] is the launcher's [NoPrivs]
    option: true when the option is set, false when it is not.  Whenever a
    process is returned, [NoNewPrivileges] is set exactly when [NoPrivs] is,
    and two launches that agree on [NoPrivs] agree on [NoNewPrivileges],
    whatever else differs. *)
Theorem getProcess_NoNewPrivileges (w : World) (l : Launcher)
    (imgSpec : imgspecv1.Image) (bundle : string) (ep : launcher.ExecParams)
    (u : specs.User) :
  (launch_inputs_ok w l ep ->
   exists p,
     getProcess w l imgSpec bundle ep u = Ok p /\
     specs.NoNewPrivileges p = launcher.NoPrivs (cfg l)) /\
  (forall p,
     getProcess w l imgSpec bundle ep u = Ok p ->
     (specs.NoNewPrivileges p = true <-> launcher.NoPrivs (cfg l) = true) /\
     (forall w' l' imgSpec' bundle' ep' u' p',
        getProcess w' l' imgSpec' bundle' ep' u' = Ok p' ->
        launcher.NoPrivs (cfg l') = launcher.NoPrivs (cfg l) ->
        specs.NoNewPrivileges p' = specs.NoNewPrivileges p)).
Proof.
  assert (Hfield : forall w0 l0 i0 b0 e0 u0 p0,
            getProcess w0 l0 i0 b0 e0 u0 = Ok p0 ->
            specs.NoNewPrivileges p0 = launcher.NoPrivs (cfg l0)).
  { intros w0 l0 i0 b0 e0 u0 p0 Hp.
    apply getProcess_ok_inv in Hp as (? & ? & ? & ? & _ & _ & _ & _ & ->).
    reflexivity. }
  split.
  - intros Hin.
    apply (getProcess_ok_iff w l imgSpec bundle ep u) in Hin as [p Hp].
    exists p. split; [exact Hp | exact (Hfield _ _ _ _ _ _ _ Hp)].
  - intros p Hp. rewrite (Hfield _ _ _ _ _ _ _ Hp).
    split; [reflexivity |].
    intros w' l' imgSpec' bundle' ep' u' p' Hp' Heq.
    rewrite (Hfield _ _ _ _ _ _ _ Hp'). exact Heq.
Qed.

Lemma getProcess_NoNewPrivileges_witness :
  (exists p,
     getProcess sampleWorld noPrivsLauncher sampleImage "/bundle"
       (sampleExec "") (sampleUser 1000) = Ok p /\
     specs.NoNewPrivileges p = true) /\
  (exists p,
     getProcess sampleWorld sampleLauncher sampleImage "/bundle"
       (sampleExec "") (sampleUser 1000) = Ok p /\
     specs.NoNewPrivileges p = false).
Proof.
  split.
  - apply (proj1 (getProcess_NoNewPrivileges sampleWorld noPrivsLauncher
                    sampleImage "/bundle" (sampleExec "") (sampleUser 1000))).
    split; [left; reflexivity |].
    split; [left; reflexivity | left; reflexivity].
  - apply (proj1 (getProcess_NoNewPrivileges sampleWorld sampleLauncher
                    sampleImage "/bundle" (sampleExec "") (sampleUser 1000))).
    split; [left; reflexivity |].
    split; [right; left; reflexivity | left; reflexivity].
Defined.

(** The runtime environment [getProcess] assembles, key by key: the layers,
    then [HOME] on top when the image declares no user. *)
Lemma getProcess_rtEnv_layers (w : World) (l : Launcher)
    (imgSpec : imgspecv1.Image) (bundle : string) (ep : launcher.ExecParams)
    (rtEnv : gmap string string) :
  getProcess_rtEnv w l imgSpec bundle ep = Ok rtEnv ->
  exists fileEnv,
    (if decide (launcher.EnvFile (cfg l) = "") then fileEnv = ∅
     else envFileMap w (launcher.EnvFile (cfg l)) = Ok fileEnv) /\
    forall k,
      rtEnv !! k =
        if decide (k = "HOME" /\ imgspecv1.User (imgspecv1.Config imgSpec) = "")
        then Some (homeDest l)
        else layeredValue w l ep bundle fileEnv k.
Proof.
  intros Hrt. unfold getProcess_rtEnv in Hrt.
  set (base := match LookupEnv w "TERM" with
               | Some hostTerm =>
                   <["TERM" := hostTerm]> (defaultEnv (launcher.Image ep) bundle)
               | None => defaultEnv (launcher.Image ep) bundle
               end) in Hrt.
  assert (Hbase : forall k,
            base !! k =
              match (if decide (k = "TERM") then LookupEnv w "TERM" else None)
              with
              | Some v => Some v
              | None => defaultEnv (launcher.Image ep) bundle !! k
              end).
  { intros k. unfold base. destruct (decide (k = "TERM")) as [-> | Hk].
    - destruct (LookupEnv w "TERM"); [apply lookup_insert_eq | done].
    - destruct (LookupEnv w "TERM"); [by rewrite lookup_insert_ne | done]. }
  assert (Hlayers : exists fileEnv,
            (if decide (launcher.EnvFile (cfg l) = "") then fileEnv = ∅
             else envFileMap w (launcher.EnvFile (cfg l)) = Ok fileEnv) /\
            rtEnv =
              if decide (imgspecv1.User (imgspecv1.Config imgSpec) = "")
              then <["HOME" := homeDest l]>
                     (mergeMap (mergeMap (mergeMap base (apptainerEnvMap w))
                                  fileEnv) (launcher.Env (cfg l)))
              else mergeMap (mergeMap (mergeMap base (apptainerEnvMap w))
                               fileEnv) (launcher.Env (cfg l))).
  { destruct (decide (launcher.EnvFile (cfg l) ≠ "")) as [Hf | Hf].
    - destruct (envFileMap w (launcher.EnvFile (cfg l))) as [e | err] eqn:E;
        simpl in Hrt; [| discriminate].
      injection Hrt as <-. exists e.
      destruct (decide (launcher.EnvFile (cfg l) = "")); [contradiction |].
      split; reflexivity.
    - simpl in Hrt. injection Hrt as <-. exists ∅.
      destruct (decide (launcher.EnvFile (cfg l) = "")) as [_ | Hf'];
        [| exfalso; apply Hf; exact Hf'].
      split; [reflexivity |].
      assert (Hempty : mergeMap (mergeMap base (apptainerEnvMap w)) ∅
                       = mergeMap base (apptainerEnvMap w))
        by (unfold mergeMap at 1; apply (left_id_L ∅ (∪))).
      rewrite Hempty. reflexivity. }
  destruct Hlayers as (fileEnv & Hfile & ->).
  exists fileEnv. split; [exact Hfile |].
  intros k. unfold layeredValue.
  destruct (decide (imgspecv1.User (imgspecv1.Config imgSpec) = ""))
    as [Hu | Hu].
  - destruct (decide (k = "HOME")) as [-> | Hk].
    + rewrite lookup_insert_eq.
      destruct (decide ("HOME" = "HOME" /\
                        imgspecv1.User (imgspecv1.Config imgSpec) = ""))
        as [_ | Hn]; [reflexivity | exfalso; apply Hn; auto].
    + rewrite lookup_insert_ne by congruence.
      destruct (decide (k = "HOME" /\
                        imgspecv1.User (imgspecv1.Config imgSpec) = ""))
        as [[Hk' _] | _]; [contradiction |].
      rewrite !lookup_mergeMap, Hbase. reflexivity.
  - destruct (decide (k = "HOME" /\
                      imgspecv1.User (imgspecv1.Config imgSpec) = ""))
      as [[_ Hu'] | _]; [contradiction |].
    rewrite !lookup_mergeMap, Hbase. reflexivity.
Qed.

(** C7 (as the code has it): on every input on which no step of
    [getProcess] fails, with keys that hold no [=], a process is returned
    whose environment follows the layers.  The runtime environment holds,
    for every key, the value of the highest layer that sets it, lowest to
    highest: the two defaults, the host [TERM], the [APPTAINERENV_]
    variables, the content of the environment file, the explicit [Env]
    pairs; on top of the layers, [HOME] is the launcher's home directory
    when the image declares no user.  In the resulting list every key but
    the four intercepted ones has its runtime value, and the image's when
    the runtime environment does not set it.  [PATH] is the runtime [PATH]
    (the image's without one) with the runtime [APPEND_PATH] and
    [PREPEND_PATH] joined to it, unless that is empty, in which case the
    image's entry stays.  In particular an explicit non-empty [PATH], with
    no [APPEND_PATH] and no [PREPEND_PATH] in the runtime environment, is
    the [PATH] of the list, whatever the image and the [APPTAINERENV_]
    variables say. *)
Theorem getProcess_env_layers (w : World) (l : Launcher)
    (imgSpec : imgspecv1.Image) (bundle : string) (ep : launcher.ExecParams)
    (u : specs.User) :
  range_ok w -> plain_keys (launcher.Env (cfg l)) ->
  launch_inputs_ok w l ep ->
  let imageEnv := imgspecv1.Env (imgspecv1.Config imgSpec) in
  exists p rtEnv fileEnv,
    getProcess w l imgSpec bundle ep u = Ok p /\
    getProcess_rtEnv w l imgSpec bundle ep = Ok rtEnv /\
    (if decide (launcher.EnvFile (cfg l) = "") then fileEnv = ∅
     else envFileMap w (launcher.EnvFile (cfg l)) = Ok fileEnv) /\
    (forall k,
       rtEnv !! k =
         if decide (k = "HOME" /\
                    imgspecv1.User (imgspecv1.Config imgSpec) = "")
         then Some (homeDest l)
         else layeredValue w l ep bundle fileEnv k) /\
    (forall k, ContainsRune k "=" = false -> k ∉ interceptedKeys ->
       lookupEnvList k (specs.Env p) =
         match rtEnv !! k with
         | Some v => Some v
         | None => lookupEnvList k imageEnv
         end) /\
    lookupEnvList "PATH" (specs.Env p) =
      (if decide (composedPath imageEnv rtEnv ≠ "")
       then Some (composedPath imageEnv rtEnv)
       else lookupEnvList "PATH" imageEnv) /\
    (forall c,
       launcher.Env (cfg l) !! "PATH" = Some c -> c <> "" ->
       rtEnv !! "APPEND_PATH" = None -> rtEnv !! "PREPEND_PATH" = None ->
       lookupEnvList "PATH" (specs.Env p) = Some c).
Proof.
  intros Hok Hcfg Hin imageEnv.
  apply (getProcess_ok_iff w l imgSpec bundle ep u) in Hin as [p Hp].
  destruct (getProcess_env_values w l imgSpec bundle ep u p Hok Hcfg Hp)
    as (rtEnv & Hrt & Hval & _).
  destruct (getProcess_rtEnv_layers w l imgSpec bundle ep rtEnv Hrt)
    as (fileEnv & Hfile & Hlayer).
  destruct (plain_keys_getProcess_rtEnv w l imgSpec bundle ep rtEnv Hcfg Hrt)
    as [Hplain _].
  assert (Henv : specs.Env p = getProcessEnv w imgSpec rtEnv).
  { apply getProcess_ok_inv in Hp
      as (rtEnv' & ? & ? & ? & Hrt' & _ & _ & _ & ->).
    rewrite Hrt in Hrt'. injection Hrt' as <-. reflexivity. }
  assert (Hpath : lookupEnvList "PATH" (specs.Env p) =
                    (if decide (composedPath imageEnv rtEnv ≠ "")
                     then Some (composedPath imageEnv rtEnv)
                     else lookupEnvList "PATH" imageEnv)).
  { rewrite Henv.
    destruct (decide (composedPath imageEnv rtEnv ≠ "")) as [Hne | He].
    - apply getProcessEnv_PATH_composed; assumption.
    - apply getProcessEnv_empty_PATH; try assumption.
      destruct (decide (composedPath imageEnv rtEnv = "")); [assumption |].
      exfalso. apply He. assumption. }
  exists p, rtEnv, fileEnv.
  repeat (split; [assumption |]).
  intros c Hc Hne Happ Hpre. rewrite Hpath.
  assert (Hrtpath : rtEnv !! "PATH" = Some c).
  { rewrite Hlayer.
    destruct (decide ("PATH" = "HOME" /\
                      imgspecv1.User (imgspecv1.Config imgSpec) = ""))
      as [[Habs _] | _]; [discriminate |].
    unfold layeredValue. rewrite Hc. reflexivity. }
  assert (Hcomp : composedPath imageEnv rtEnv = c).
  { unfold composedPath. rewrite Hrtpath, Happ, Hpre. simpl.
    destruct (decide ("" ≠ "")); [contradiction | reflexivity]. }
  rewrite Hcomp. destruct (decide (c ≠ "")); [reflexivity | contradiction].
Qed.

Lemma not_intercepted (k : string) :
  k <> "PATH" -> k <> "APPEND_PATH" -> k <> "PREPEND_PATH" ->
  k <> "LD_LIBRARY_PATH" -> k ∉ interceptedKeys.
Proof.
  intros H1 H2 H3 H4. unfold interceptedKeys.
  rewrite !elem_of_cons, elem_of_nil. tauto.
Qed.

Lemma getProcess_env_layers_witness :
  imgspecv1.Env (imgspecv1.Config sampleImage) = ["PATH=/a"] /\
  apptainerEnvMap sampleWorld !! "PATH" = Some "/b" /\
  apptainerEnvMap sampleWorld !! "FOO" = Some "bar" /\
  exists p,
    getProcess sampleWorld (launcherWith "/etc/env" {[ "PATH" := "/c" ]})
      sampleImage "/bundle" (sampleExec "") (sampleUser 1000) = Ok p /\
    lookupEnvList "PATH" (specs.Env p) = Some "/c" /\
    lookupEnvList "FOO" (specs.Env p) = Some "file" /\
    lookupEnvList "TERM" (specs.Env p) = Some "xterm" /\
    lookupEnvList "APPTAINER_NAME" (specs.Env p) = Some "docker://alpine" /\
    lookupEnvList "HOME" (specs.Env p) = Some "/home/alice".
Proof.
  split; [reflexivity |].
  split; [vm_compute; reflexivity |].
  split; [vm_compute; reflexivity |].
  destruct (getProcess_env_layers sampleWorld
              (launcherWith "/etc/env" {[ "PATH" := "/c" ]})
              sampleImage "/bundle" (sampleExec "") (sampleUser 1000)
              range_ok_sampleWorld (plain_keys_singleton "PATH" "/c" eq_refl))
    as (p & rtEnv & fileEnv & Hp & Hrt & _ & _ & Hval & _ & Hpath).
  { split; [right; eexists; vm_compute; reflexivity |].
    split; [right; left; reflexivity | left; reflexivity]. }
  vm_compute in Hrt. injection Hrt as <-.
  exists p. split; [exact Hp |].
  split.
  { apply (Hpath "/c");
      [vm_compute; reflexivity | discriminate
      | vm_compute; reflexivity | vm_compute; reflexivity]. }
  repeat split;
    (rewrite Hval;
     [vm_compute; reflexivity | reflexivity
     | apply not_intercepted; discriminate]).
Defined.

(** C7, as stated, fails on three counts.  An explicit [HOME] is not the
    [HOME] of the result when the image declares no user: the launcher's
    home directory is.  An explicit empty [PATH] is not the [PATH] of the
    result: the image's is.  An explicit [PATH] is not the [PATH] of the
    result when a lower layer sets [APPEND_PATH]: that is joined to it. *)
Lemma getProcess_env_layers_counterexample :
  (launcher.Env (cfg (launcherWith "" {[ "HOME" := "/x" ]})) !! "HOME"
     = Some "/x" /\
   exists p,
     getProcess sampleWorld (launcherWith "" {[ "HOME" := "/x" ]})
       sampleImage "/bundle" (sampleExec "") (sampleUser 1000) = Ok p /\
     lookupEnvList "HOME" (specs.Env p) = Some "/home/alice") /\
  (launcher.Env (cfg (launcherWith "" {[ "PATH" := "" ]})) !! "PATH"
     = Some "" /\
   exists p,
     getProcess sampleWorld (launcherWith "" {[ "PATH" := "" ]})
       sampleImage "/bundle" (sampleExec "") (sampleUser 1000) = Ok p /\
     lookupEnvList "PATH" (specs.Env p) = Some "/a") /\
  (launcher.Env (cfg (launcherWith "" {[ "PATH" := "/c" ]})) !! "PATH"
     = Some "/c" /\
   exists p,
     getProcess (hostWithEnviron ["APPTAINERENV_APPEND_PATH=/evil"])
       (launcherWith "" {[ "PATH" := "/c" ]})
       sampleImage "/bundle" (sampleExec "") (sampleUser 1000) = Ok p /\
     lookupEnvList "PATH" (specs.Env p) = Some "/c:/evil").
Proof.
  repeat split; try (vm_compute; reflexivity);
    eexists; (split; [vm_compute; reflexivity |]); vm_compute; reflexivity.
Qed.

(** Why the keys are asked to hold no [=]: in a [KEY=VALUE] list the key
    [A=B] with value [y] and the key [A] with a value that starts with
    [B=] cannot be told apart, and one of the two writes is lost. *)
Example getProcessEnv_key_with_equals :
  getProcessEnv sampleWorld sampleImage (<["A" := "B=c"]> {[ "A=B" := "y" ]})
    = ["PATH=/a"; "A=B=c"; "LD_LIBRARY_PATH=/.singularity.d/libs"].
Proof. vm_compute. reflexivity. Qed.

(** X14: on every input on which no step of [getProcess] fails, the
    process returned has the arguments of its mode: for a native SIF image
    the action script arguments, whatever the action; otherwise, for the
    action [shell], the fixed [/bin/sh -c] invocation of the shell script,
    whatever process name, arguments, entrypoint and default command are
    given; otherwise those of [getProcessArgs]. *)
Theorem getProcess_args_by_mode (w : World) (l : Launcher)
    (imgSpec : imgspecv1.Image) (bundle : string) (ep : launcher.ExecParams)
    (u : specs.User) :
  launch_inputs_ok w l ep ->
  exists p,
    getProcess w l imgSpec bundle ep u = Ok p /\
    (nativeSIF l = true -> ActionScriptArgs w ep = Ok (specs.Args p)) /\
    (nativeSIF l = false -> launcher.Action ep = "shell" ->
     specs.Args p = ["/bin/sh"; "-c"; ociShellScript]) /\
    (nativeSIF l = false -> launcher.Action ep <> "shell" ->
     specs.Args p = getProcessArgs imgSpec ep).
Proof.
  intros Hin.
  apply (getProcess_ok_iff w l imgSpec bundle ep u) in Hin as [p Hp].
  exists p. split; [exact Hp |].
  apply getProcess_ok_inv in Hp as (? & ? & ? & args & _ & _ & _ & Ha & ->).
  cbn [specs.Args]. unfold getProcess_args in Ha.
  split; [| split].
  - intros Hsif. rewrite Hsif in Ha.
    destruct (ActionScriptArgs w ep); [| discriminate].
    injection Ha as <-. reflexivity.
  - intros Hsif Hshell. rewrite Hsif in Ha.
    destruct (decide (launcher.Action ep = "shell")); [| contradiction].
    injection Ha as <-. reflexivity.
  - intros Hsif Hshell. rewrite Hsif in Ha.
    destruct (decide (launcher.Action ep = "shell")); [contradiction |].
    injection Ha as <-. reflexivity.
Qed.

Lemma getProcess_args_by_mode_witness :
  (exists p,
     getProcess sampleWorld sampleLauncher sampleImage "/bundle" shellExec
       (sampleUser 1000) = Ok p /\
     specs.Args p = ["/bin/sh"; "-c"; ociShellScript]) /\
  (exists p,
     getProcess sampleWorld nativeLauncher sampleImage "/bundle" shellExec
       (sampleUser 1000) = Ok p /\
     specs.Args p = ["/.singularity.d/actions/run"]).
Proof.
  split.
  - destruct (getProcess_args_by_mode sampleWorld sampleLauncher sampleImage
                "/bundle" shellExec (sampleUser 1000))
      as (p & Hp & _ & Hshell & _).
    { split; [left; reflexivity |].
      split; [right; left; reflexivity | left; reflexivity]. }
    exists p. split; [exact Hp | exact (Hshell eq_refl eq_refl)].
  - destruct (getProcess_args_by_mode sampleWorld nativeLauncher sampleImage
                "/bundle" shellExec (sampleUser 1000))
      as (p & Hp & Hnative & _).
    { split; [left; reflexivity |].
      split; [left; reflexivity | right; eexists; reflexivity]. }
    exists p. split; [exact Hp |].
    specialize (Hnative eq_refl). injection Hnative as <-. reflexivity.
Defined.

(** X15: on every input on which no step of [getProcess] fails, the
    working directory of the process returned is the [CwdPath] option when
    it is not empty, and the launcher's home directory otherwise; its user
    is the one passed in. *)
Theorem getProcess_cwd (w : World) (l : Launcher)
    (imgSpec : imgspecv1.Image) (bundle : string) (ep : launcher.ExecParams)
    (u : specs.User) :
  launch_inputs_ok w l ep ->
  exists p,
    getProcess w l imgSpec bundle ep u = Ok p /\
    specs.Cwd p =
      (if decide (launcher.CwdPath (cfg l) = "") then homeDest l
       else launcher.CwdPath (cfg l)) /\
    specs.User' p = u.
Proof.
  intros Hin.
  apply (getProcess_ok_iff w l imgSpec bundle ep u) in Hin as [p Hp].
  exists p. split; [exact Hp |].
  apply getProcess_ok_inv in Hp as (? & cwd & ? & ? & _ & Hcwd & _ & _ & ->).
  cbn [specs.Cwd specs.User']. split; [| reflexivity].
  unfold getProcessCwd in Hcwd.
  destruct (launcher.CwdPath (cfg l)) as [| c s] eqn:E; simpl in Hcwd.
  - injection Hcwd as <-. reflexivity.
  - destruct (decide (0 < S (String.length s))); [| lia].
    injection Hcwd as <-. reflexivity.
Qed.

Lemma getProcess_cwd_witness :
  (exists p,
     getProcess sampleWorld noPrivsLauncher sampleImage "/bundle"
       (sampleExec "") (sampleUser 1000) = Ok p /\
     specs.Cwd p = "/srv") /\
  (exists p,
     getProcess sampleWorld sampleLauncher sampleImage "/bundle"
       (sampleExec "") (sampleUser 1000) = Ok p /\
     specs.Cwd p = "/home/alice").
Proof.
  split.
  - destruct (getProcess_cwd sampleWorld noPrivsLauncher sampleImage
                "/bundle" (sampleExec "") (sampleUser 1000))
      as (p & Hp & Hcwd & _).
    { split; [left; reflexivity |].
      split; [left; reflexivity | left; reflexivity]. }
    exists p. split; [exact Hp | exact Hcwd].
  - destruct (getProcess_cwd sampleWorld sampleLauncher sampleImage
                "/bundle" (sampleExec "") (sampleUser 1000))
      as (p & Hp & Hcwd & _).
    { split; [left; reflexivity |].
      split; [right; left; reflexivity | left; reflexivity]. }
    exists p. split; [exact Hp | exact Hcwd].
Defined.

End LaunchFacts.
